(** * Smart Bot Technology: the console of [sbt_main.py]

    The commands of [SBTConsole] are embedded as functions on an explicit
    console state.  What the console calls but does not define (the text
    predictor, the rating manager, the preprocessor, the file system and
    Python's [int] and [float]) enters as parameters.  Python strings are
    [string]s whose characters are read as the code points below 256; a
    finite Python [float] is read as the exact rational it denotes.

    The model builder, the predictor and the rating controller, whose
    code is not among the sources, are modelled from the specification in
    sections of their own.  The lines of a session reach the commands the
    way [cmd.Cmd], which the console inherits from, dispatches them. *)

From Stdlib Require Import String Ascii List ZArith QArith Bool Arith Lia Lqa.
Import ListNotations.

Local Close Scope Q_scope.
Local Open Scope string_scope.
Local Open Scope list_scope.

(** ** Python string and list primitives used by the console *)

(** [str.isspace] on one character (code points below 256). *)
Definition isspace (c : ascii) : bool :=
  let n := nat_of_ascii c in
  ((9 <=? n) && (n <=? 13) || (28 <=? n) && (n <=? 32)
   || (n =? 133) || (n =? 160))%nat.

(** [str.isdigit] on one character: the decimal digits and the superscript
    digits (code points 178, 179 and 185). *)
Definition isdigit_char (c : ascii) : bool :=
  let n := nat_of_ascii c in
  ((48 <=? n) && (n <=? 57) || (n =? 178) || (n =? 179) || (n =? 185))%nat.

Fixpoint all_chars (p : ascii -> bool) (s : string) : bool :=
  match s with
  | EmptyString => true
  | String c rest => p c && all_chars p rest
  end.

(** [s.isdigit()]: every character is a digit and there is at least one. *)
Definition isdigit (s : string) : bool :=
  match s with
  | EmptyString => false
  | _ => all_chars isdigit_char s
  end.

(** [s.split()] with no separator: the maximal runs of non-whitespace
    characters, in order.  [word] is the run being read. *)
Fixpoint split_from (word s : string) : list string :=
  match s with
  | EmptyString =>
      match word with EmptyString => [] | _ => [word] end
  | String c rest =>
      if isspace c then
        match word with
        | EmptyString => split_from EmptyString rest
        | _ => word :: split_from EmptyString rest
        end
      else split_from (word ++ String c EmptyString) rest
  end.

Definition split (s : string) : list string := split_from EmptyString s.

(** [sep.join(words)]. *)
Fixpoint join (sep : string) (words : list string) : string :=
  match words with
  | [] => EmptyString
  | [w] => w
  | w :: rest => w ++ sep ++ join sep rest
  end.

(** [l[i]] with Python's negative indices; [None] stands for [IndexError]. *)
Definition index {A : Type} (l : list A) (i : Z) : option A :=
  let len := Z.of_nat (List.length l) in
  let j := (if i <? 0 then len + i else i)%Z in
  if ((0 <=? j) && (j <? len))%Z then nth_error l (Z.to_nat j) else None.

(** [l[:stop]] with Python's clipping of the bound. *)
Definition slice_to {A : Type} (l : list A) (stop : Z) : list A :=
  let len := Z.of_nat (List.length l) in
  let j := (if stop <? 0 then Z.max 0 (len + stop) else Z.min stop len)%Z in
  firstn (Z.to_nat j) l.

(** [l[start:]] with Python's clipping of the bound. *)
Definition slice_from {A : Type} (l : list A) (start : Z) : list A :=
  let len := Z.of_nat (List.length l) in
  let j := (if start <? 0 then Z.max 0 (len + start) else Z.min start len)%Z in
  skipn (Z.to_nat j) l.

(** [w in words] for a list of strings. *)
Fixpoint str_in (w : string) (words : list string) : bool :=
  match words with
  | [] => false
  | x :: rest => String.eqb w x || str_in w rest
  end.

(** Exceptions the argument handling can raise. *)
Inductive exn : Type := ValueError | IndexError.

(** A Python [float]: a finite value, read as the exact rational it
    denotes, an infinity or a NaN. *)
Inductive float : Type :=
| Finite (q : Q)
| Infinity
| NegInfinity
| NaN.

(** ** The console *)

Section Console.

(** The model object built by [TextPredictor.build_ngram_model]; the
    console only tests whether it is truthy and hands it on. *)
Variable Model : Type.
Variable model_truthy : Model -> bool.

(** The rating manager's state; the console hands feedback to it and
    prints its parameters. *)
Variable RatingManager : Type.

(** [RatingManager.process_feedback]: the state it leaves and, when it
    raises, the text of the exception.  [RatingManager.get_current_params]:
    the parameters as printed, or the text of the exception it raises. *)
Variable process_feedback : string -> RatingManager -> RatingManager * option string.
Variable get_current_params : RatingManager -> string + list (string * string).

(** What [do_build_ngram] calls: [os.path.exists], reading the whole
    file, [TextPreprocessor.clean_text] and
    [TextPredictor.build_ngram_model]; where one of them raises, [inl] holds
    the text of the exception. *)
Variable path_exists : string -> bool.
Variable read_file : string -> string + string.
Variable clean_text : string -> string + string.
Variable build_ngram_model : list string -> Z -> string + Model.

(** Python's [int(str)] and [float(str)]; [None] stands for [ValueError]. *)
Variable py_int : string -> option Z.
Variable py_float : string -> option float.

Record exchange : Type := { input : string; response : string }.

Record SBTConsole : Type := {
  rating_manager : RatingManager;
  conversation_history : list exchange;
  bigram_model : option Model;
  trigram_model : option Model
}.

Definition set_rating_manager (self : SBTConsole) (rm : RatingManager)
  : SBTConsole :=
  {| rating_manager := rm;
     conversation_history := conversation_history self;
     bigram_model := bigram_model self;
     trigram_model := trigram_model self |}.

(** [do_feedback]: the lines printed and the console afterwards. *)
Definition do_feedback (self : SBTConsole) (arg : string)
  : list string * SBTConsole :=
  match arg with
  | EmptyString => (["Please provide feedback (good/bad or 1-10)."], self)
  | _ =>
      let (rm, raised) := process_feedback arg (rating_manager self) in
      let self' := set_rating_manager self rm in
      match raised with
      | Some e => (["Error processing feedback: " ++ e]%string, self')
      | None =>
          match get_current_params rm with
          | inl e => (["Error processing feedback: " ++ e]%string, self')
          | inr current_params =>
              ("Feedback processed successfully."
                 :: "Current System Parameters:"
                 :: map (fun pv => "  " ++ fst pv ++ ": " ++ snd pv)%string
                      current_params,
               self')
          end
      end
  end.

(** [do_history]: the exchanges listed, or the message printed when the
    limit is no number. *)
Definition do_history (self : SBTConsole) (arg : string)
  : string + list exchange :=
  let limit :=
    match arg with
    | EmptyString => Some (Z.of_nat (List.length (conversation_history self)))
    | _ => py_int arg
    end in
  match limit with
  | Some k => inr (slice_from (conversation_history self) (- k)%Z)
  | None => inl "Please provide a valid number for history limit."
  end.

(** How a command ends: an exception leaves it, or it returns after
    printing some lines, with the console as it then is. *)
Inductive outcome : Type :=
| Raises (e : exn)
| Returns (printed : list string) (after : SBTConsole).

(** The training source and the order [n] that [do_build_ngram] reads off
    its argument. *)
Definition build_ngram_args (parts : list string) : exn + option string * Z :=
  match parts with
  | [w] =>
      if str_in w ["2"; "3"] then
        inr (None, if String.eqb w "2" then 2%Z else 3%Z)
      else inr (Some w, 2%Z)
  | [f; k] =>
      match py_int k with
      | Some n => inr (Some f, n)
      | None => inl ValueError
      end
  | _ => inr (None, 2%Z)
  end.

(** [if filepath:] *)
Definition truthy_path (filepath : option string) : option string :=
  match filepath with
  | Some EmptyString => None
  | other => other
  end.

(** The text of the conversation history, as [do_build_ngram] joins it. *)
Definition history_text (self : SBTConsole) : string :=
  join " "
    (map (fun ex => input ex ++ " " ++ response ex)%string
       (conversation_history self)).

Definition source_name (filepath : option string) : string :=
  match truthy_path filepath with
  | Some f => ("file: " ++ f)%string
  | None => "conversation history"
  end.

Definition do_build_ngram (self : SBTConsole) (arg : string) : outcome :=
  match build_ngram_args (split arg) with
  | inl e => Raises e
  | inr (filepath, n) =>
      let training :=
        match truthy_path filepath with
        | Some f =>
            if negb (path_exists f) then
              inl ("Error: File '" ++ f ++ "' does not exist.")%string
            else
              match read_file f with
              | inl e => inl ("Error reading file: " ++ e)%string
              | inr text => inr text
              end
        | None => inr (history_text self)
        end in
      match training with
      | inl msg => Returns [msg] self
      | inr all_text =>
          let built :=
            match clean_text all_text with
            | inl e => inl e
            | inr cleaned_text => build_ngram_model (split cleaned_text) n
            end in
          match built with
          | inl e => Returns ["Error building N-gram model: " ++ e]%string self
          | inr ngram_model =>
              if (n =? 2)%Z then
                Returns
                  ["Bigram model built successfully from "
                     ++ source_name filepath ++ "."]%string
                  {| rating_manager := rating_manager self;
                     conversation_history := conversation_history self;
                     bigram_model := Some ngram_model;
                     trigram_model := trigram_model self |}
              else
                Returns
                  ["Trigram model built successfully from "
                     ++ source_name filepath ++ "."]%string
                  {| rating_manager := rating_manager self;
                     conversation_history := conversation_history self;
                     bigram_model := bigram_model self;
                     trigram_model := Some ngram_model |}
          end
      end
  end.

(** What a command does: it prints a message and returns, or it reaches
    its call into the text predictor with these arguments. *)
Inductive reply : Type :=
| Say (msg : string)
| PredictNextWord (model : Model) (prefix : string) (n : Z)
    (temperature : float)
| GenerateSequence (model : Model) (seed_text : string)
    (length : Z) (n : Z) (temperature : float).

(** The model selection shared by both prediction commands:
    [model_type == 'bigram'] picks the bigram model and [n = 2], anything
    else the trigram model and [n = 3]; a missing or falsy model ends the
    command with a message. *)
Definition select_model (self : SBTConsole) (model_type : string)
  : string + Model * Z :=
  if String.eqb model_type "bigram" then
    match bigram_model self with
    | Some m =>
        if model_truthy m then inr (m, 2%Z)
        else inl "Please build a bigram model first using 'build_ngram'."
    | None => inl "Please build a bigram model first using 'build_ngram'."
    end
  else
    match trigram_model self with
    | Some m =>
        if model_truthy m then inr (m, 3%Z)
        else inl "Please build a trigram model first using 'build_ngram 3'."
    | None => inl "Please build a trigram model first using 'build_ngram 3'."
    end.

(** The local variables [length], [model_type], [temperature] of
    [do_generate_sequence]. *)
Record gen_options : Type := {
  opt_length : Z;
  opt_model_type : string;
  opt_temperature : float
}.

Definition default_options : gen_options :=
  {| opt_length := 10%Z;
     opt_model_type := "bigram";
     opt_temperature := Finite (8 # 10)%Q |}.

Definition stmt : Type := gen_options -> exn + gen_options.

(** [length = int(parts[-3]) if parts[-3].isdigit() else length] *)
Definition assign_length (parts : list string) : stmt := fun o =>
  match index parts (-3)%Z with
  | None => inl IndexError
  | Some w =>
      if isdigit w then
        match py_int w with
        | None => inl ValueError
        | Some k =>
            inr {| opt_length := k; opt_model_type := opt_model_type o;
                   opt_temperature := opt_temperature o |}
        end
      else inr o
  end.

(** [model_type = parts[-2] if parts[-2] in ['bigram', 'trigram'] else model_type] *)
Definition assign_model_type (parts : list string) : stmt := fun o =>
  match index parts (-2)%Z with
  | None => inl IndexError
  | Some w =>
      if str_in w ["bigram"; "trigram"] then
        inr {| opt_length := opt_length o; opt_model_type := w;
               opt_temperature := opt_temperature o |}
      else inr o
  end.

(** [temperature = float(parts[-1]) if parts[-1] != model_type else temperature] *)
Definition assign_temperature (parts : list string) : stmt := fun o =>
  match index parts (-1)%Z with
  | None => inl IndexError
  | Some w =>
      if negb (String.eqb w (opt_model_type o)) then
        match py_float w with
        | None => inl ValueError
        | Some t =>
            inr {| opt_length := opt_length o;
                   opt_model_type := opt_model_type o;
                   opt_temperature := t |}
        end
      else inr o
  end.

(** [try: body except (ValueError, IndexError): pass]: the statements run
    in order; the first one that raises ends the block, the assignments
    made before it stay. *)
Fixpoint try_pass (body : list stmt) (o : gen_options) : gen_options :=
  match body with
  | [] => o
  | s :: rest =>
      match s o with
      | inl _ => o
      | inr o' => try_pass rest o'
      end
  end.

Definition parse_options (parts : list string) : gen_options :=
  if (1 <? List.length parts)%nat then
    try_pass [assign_length parts; assign_model_type parts;
              assign_temperature parts] default_options
  else default_options.

(** [seed_text] of [do_generate_sequence]. *)
Definition seed_of (arg : string) (parts : list string) : string :=
  if (3 <? List.length parts)%nat then join " " (slice_to parts (-3)%Z)
  else if (2 <? List.length parts)%nat then join " " (slice_to parts (-2)%Z)
  else arg.

Definition do_generate_sequence (self : SBTConsole) (arg : string) : reply :=
  match arg with
  | EmptyString => Say "Please provide a seed text for sequence generation."
  | _ =>
      let parts := split arg in
      let seed_text := seed_of arg parts in
      let o := parse_options parts in
      match select_model self (opt_model_type o) with
      | inl msg => Say msg
      | inr (model, n) =>
          GenerateSequence model seed_text (opt_length o) n
            (opt_temperature o)
      end
  end.

(** [prefix] and [model_type] of [do_predict_next_word]. *)
Definition typed_prefix (parts : list string) : bool :=
  (1 <? List.length parts)%nat &&
  match index parts (-1)%Z with
  | Some w => str_in w ["bigram"; "trigram"]
  | None => false
  end.

Definition prefix_of (arg : string) (parts : list string) : string :=
  if typed_prefix parts then join " " (slice_to parts (-1)%Z) else arg.

Definition model_type_of (parts : list string) : string :=
  if typed_prefix parts then
    match index parts (-1)%Z with Some w => w | None => "bigram" end
  else "bigram".

Definition do_predict_next_word (self : SBTConsole) (arg : string) : reply :=
  match arg with
  | EmptyString => Say "Please provide a prefix for prediction."
  | _ =>
      let parts := split arg in
      match select_model self (model_type_of parts) with
      | inl msg => Say msg
      | inr (model, n) =>
          PredictNextWord model (prefix_of arg parts) n (Finite (8 # 10)%Q)
      end
  end.

End Console.

Arguments Say {Model} msg.
Arguments PredictNextWord {Model} model prefix n temperature.
Arguments GenerateSequence {Model} model seed_text length n temperature.

(** ** Two conversions for worked examples

    They read a plain decimal numeral (digits; for [float] an optional
    minus sign and an optional fraction) as [int] and [float] do, and
    reject every other word, also those Python would read, such as [1e3],
    [.5] or [inf].  The examples below use them on numerals of that plain
    form and on words that are no numbers at all. *)

Definition digit_value (c : ascii) : option Z :=
  let n := nat_of_ascii c in
  if ((48 <=? n) && (n <=? 57))%nat then Some (Z.of_nat (n - 48)) else None.

Fixpoint digits_value (acc : Z) (s : string) : option Z :=
  match s with
  | EmptyString => Some acc
  | String c rest =>
      match digit_value c with
      | Some d => digits_value (10 * acc + d) rest
      | None => None
      end
  end.

Definition decimal_int (s : string) : option Z :=
  match s with
  | EmptyString => None
  | _ => digits_value 0 s
  end.

(** The digits before the first ['.'] and the text after it, if any. *)
Fixpoint cut_at_point (s : string) : string * option string :=
  match s with
  | EmptyString => (EmptyString, None)
  | String c rest =>
      if Ascii.eqb c "."%char then (EmptyString, Some rest)
      else let (a, b) := cut_at_point rest in (String c a, b)
  end.

Definition unsigned_decimal (s : string) : option Q :=
  match cut_at_point s with
  | (whole, None) =>
      match decimal_int whole with
      | Some w => Some (inject_Z w)
      | None => None
      end
  | (whole, Some frac) =>
      match decimal_int whole, decimal_int frac with
      | Some w, Some f =>
          Some (inject_Z w + (f # Pos.pow 10 (Pos.of_nat (String.length frac))))%Q
      | _, _ => None
      end
  end.

Definition decimal_float (s : string) : option float :=
  match s with
  | String "-"%char rest =>
      match unsigned_decimal rest with
      | Some q => Some (Finite (- q)%Q)
      | None => None
      end
  | _ =>
      match unsigned_decimal s with
      | Some q => Some (Finite q)
      | None => None
      end
  end.

(** ** ModelBuilder *)

(** Modelled from the spec: [TextPredictor.build_ngram_model], which
    [do_build_ngram] calls, is not among the sources.  The data model is
    that of section 3: a token is a string, a context a tuple of tokens,
    and a model maps each context to the counts of the tokens seen after
    it.  Contexts and continuations are kept in first-observed order. *)
Definition Token : Type := string.
Definition Context : Type := list Token.
Definition continuations : Type := list (Token * nat).
Definition table : Type := list (Context * continuations).

(** The order of a model: [n] is 2 or 3. *)
Inductive ngram_order : Type := Bigram | Trigram.

Definition width (o : ngram_order) : nat :=
  match o with Bigram => 2 | Trigram => 3 end.

Record NGramModel : Type := {
  order : ngram_order;
  counts : table
}.

Inductive build_error : Type := InsufficientDataError.

Fixpoint context_eqb (a b : Context) : bool :=
  match a, b with
  | [], [] => true
  | x :: a', y :: b' => String.eqb x y && context_eqb a' b'
  | _, _ => false
  end.

(** One more occurrence of continuation [t]. *)
Fixpoint bump (t : Token) (cs : continuations) : continuations :=
  match cs with
  | [] => [(t, 1)]
  | (u, c) :: rest =>
      if String.eqb t u then (u, S c) :: rest else (u, c) :: bump t rest
  end.

(** One more occurrence of [t] after context [ctx]. *)
Fixpoint observe (ctx : Context) (t : Token) (tbl : table) : table :=
  match tbl with
  | [] => [(ctx, [(t, 1)])]
  | (k, cs) :: rest =>
      if context_eqb ctx k then (k, bump t cs) :: rest
      else (k, cs) :: observe ctx t rest
  end.

(** The windows of width [n] that start at each position of [tokens], as
    (context, continuation) pairs, left to right. *)
Fixpoint windows (n : nat) (tokens : list Token) : list (Context * Token) :=
  match tokens with
  | [] => []
  | _ :: rest =>
      match nth_error tokens (n - 1) with
      | Some t => (firstn (n - 1) tokens, t) :: windows n rest
      | None => []
      end
  end.

Definition count_windows (tbl : table) (ws : list (Context * Token)) : table :=
  fold_left (fun acc w => observe (fst w) (snd w) acc) ws tbl.

(** Modelled from the spec: [ModelBuilder.build] of section 4.1, which
    stands for the absent [TextPredictor.build_ngram_model].  A window of
    width [n] slides over the tokens with stride 1; its first [n-1] tokens
    are the context, its last token the continuation, whose count goes up
    by one.  Fewer than [n] tokens give [InsufficientDataError]. *)
Definition build (tokens : list Token) (n : ngram_order)
  : build_error + NGramModel :=
  if (List.length tokens <? width n)%nat then inl InsufficientDataError
  else inr {| order := n; counts := count_windows [] (windows (width n) tokens) |}.

Definition continuation_total (cs : continuations) : nat :=
  list_sum (map snd cs).

(** The total continuation count, over all contexts and continuations. *)
Definition total_count (tbl : table) : nat :=
  list_sum (map (fun entry => continuation_total (snd entry)) tbl).

(** The continuations recorded for a context. *)
Fixpoint lookup (tbl : table) (ctx : Context) : option continuations :=
  match tbl with
  | [] => None
  | (k, cs) :: rest => if context_eqb ctx k then Some cs else lookup rest ctx
  end.

(** The count recorded for continuation [t] in a continuation list, and
    for the pair of a context and a continuation in a table. *)
Fixpoint continuation_count (cs : continuations) (t : Token) : nat :=
  match cs with
  | [] => 0
  | (u, c) :: rest => if String.eqb t u then c else continuation_count rest t
  end.

Definition pair_count (tbl : table) (ctx : Context) (t : Token) : nat :=
  match lookup tbl ctx with
  | Some cs => continuation_count cs t
  | None => 0
  end.

(** How many of the windows have this context and this continuation. *)
Definition occurrences (ws : list (Context * Token)) (ctx : Context)
    (t : Token) : nat :=
  List.length
    (filter (fun w => context_eqb ctx (fst w) && String.eqb t (snd w)) ws).

(** ** Predictor *)

(** Modelled from the spec: [Predictor.predict] of section 4.2, which
    stands for the absent [TextPredictor.predict_next_word].  The errors
    are those the section names.  The arithmetic is exact, on rational
    numbers, and the uniform random source is its result [u], a number
    with [0 <= u < 1]. *)
Inductive predict_error : Type :=
| UnderspecifiedContextError
| UnknownContextError
| InvalidParameterError.

(** What a prediction gives: a token, one of the errors, or nothing the
    rational numbers can follow ([1/T] is not a whole number, and the
    weights [p^(1/T)] are then not rational). *)
Inductive prediction : Type :=
| Predicted (t : Token)
| Fails (e : predict_error)
| Unrepresented.

(** The last [n-1] tokens of the prefix, or all of it when it is shorter. *)
Definition lookup_context (model : NGramModel) (prefix : list Token)
  : Context :=
  skipn (List.length prefix - (width (order model) - 1)) prefix.

Definition count_as_Q (c : nat) : Q := inject_Z (Z.of_nat c).

(** Step 1: [p_i = c_i / sum c_j], in first-observed order. *)
Definition base_probabilities (cs : continuations) : list (Token * Q) :=
  map (fun e =>
         (fst e,
          (count_as_Q (snd e) / count_as_Q (continuation_total cs))%Q))
      cs.

Fixpoint power (p : Q) (k : nat) : Q :=
  match k with
  | O => 1%Q
  | S k' => (p * power p k')%Q
  end.

(** [1/T], when [T] is positive and [1/T] is a whole number. *)
Definition whole_reciprocal (temperature : Q) : option positive :=
  match Qnum temperature with
  | Zpos a =>
      if (Z.pos (Qden temperature) mod Z.pos a =? 0)%Z
      then Some (Z.to_pos (Z.pos (Qden temperature) / Z.pos a))
      else None
  | _ => None
  end.

(** Step 2: [w_i = p_i^(1/T)], here with [1/T = k]. *)
Definition tempered (k : positive) (ps : list (Token * Q))
  : list (Token * Q) :=
  map (fun e => (fst e, power (snd e) (Pos.to_nat k))) ps.

Definition weight_total (ws : list (Token * Q)) : Q :=
  fold_right (fun e acc => (snd e + acc)%Q) 0%Q ws.

(** Step 3: the weights renormalised to sum to 1, and the draw.  The
    tokens keep their first-observed order (step 4), each takes a
    stretch of [[0, 1)] as long as its share, and the token drawn is the
    one in whose stretch [u] falls; tokens of equal weight have stretches
    of equal length. *)
Definition renormalize (ws : list (Token * Q)) : list (Token * Q) :=
  map (fun e => (fst e, (snd e / weight_total ws)%Q)) ws.

Fixpoint draw (dist : list (Token * Q)) (u : Q) : option Token :=
  match dist with
  | [] => None
  | (t, p) :: rest =>
      match rest with
      | [] => Some t
      | _ :: _ => if Qlt_le_dec u p then Some t else draw rest (u - p)%Q
      end
  end.

(** Modelled from the spec: [predict(model, prefix, temperature)] of
    section 4.2, with the value [u] of the random source as a further
    argument.  A temperature that is not positive is an
    [InvalidParameterError], an empty prefix an
    [UnderspecifiedContextError], a context with no entry an
    [UnknownContextError]; the spec gives no order among the three, they
    are looked at in this one. *)
Definition predict (model : NGramModel) (prefix : list Token)
    (temperature : Q) (u : Q) : prediction :=
  if Qlt_le_dec 0 temperature then
    match prefix with
    | [] => Fails UnderspecifiedContextError
    | _ :: _ =>
        match lookup (counts model) (lookup_context model prefix) with
        | None => Fails UnknownContextError
        | Some cs =>
            match whole_reciprocal temperature with
            | None => Unrepresented
            | Some k =>
                match draw (renormalize (tempered k (base_probabilities cs)))
                        u with
                | Some t => Predicted t
                | None => Fails UnknownContextError
                end
            end
        end
    end
  else Fails InvalidParameterError.

(** ** RatingController *)

(** Modelled from the spec: [RatingManager] is not among the sources.  The
    records are those of section 3: the generation parameters, a feedback
    event, and the adjustment history the controller keeps. *)
Record GenerationParams : Type := { temperature : Q }.

Inductive FeedbackEvent : Type :=
| Good
| Bad
| Rating (r : Z).

(** One entry of the adjustment history: the delta asked for before
    clamping and the value applied after it. *)
Record adjustment : Type := {
  requested_delta : Q;
  applied_value : Q
}.

Record RatingController : Type := {
  current_params : GenerationParams;
  adjustment_history : list adjustment
}.

Inductive feedback_error : Type := InvalidFeedbackError.

Definition temperature_of (rc : RatingController) : Q :=
  temperature (current_params rc).

Section Rating.

Variables T_min T_max step scale : Q.

Definition midpoint : Q := (55 # 10)%Q.

Definition valid_event (ev : FeedbackEvent) : bool :=
  match ev with
  | Rating r => ((1 <=? r) && (r <=? 10))%Z
  | _ => true
  end.

(** [good] pulls the temperature down by the step, [bad] pushes it up;
    a numeric rating gives [(midpoint - rating) * scale]. *)
Definition requested (ev : FeedbackEvent) : Q :=
  match ev with
  | Good => (- step)%Q
  | Bad => step
  | Rating r => ((midpoint - inject_Z r) * scale)%Q
  end.

Definition clamp (t : Q) : Q :=
  if Qlt_le_dec t T_min then T_min
  else if Qlt_le_dec T_max t then T_max
  else t.

(** Modelled from the spec: [RatingController.apply_feedback] of section
    4.4, which stands for the absent [RatingManager.process_feedback].  The
    requested delta is added to the temperature, the sum is clamped to
    [[T_min, T_max]], and the history records the delta asked for and the
    value applied; the result is the snapshot returned (or the error) and
    the controller afterwards.  The interval, the step of a categorical
    rating and the scale of a numeric one are the constants the spec
    leaves open. *)
Definition apply_feedback (ev : FeedbackEvent) (rc : RatingController)
  : (feedback_error + GenerationParams) * RatingController :=
  if valid_event ev then
    let d := requested ev in
    let t := clamp (temperature (current_params rc) + d)%Q in
    let p := {| temperature := t |} in
    (inr p,
     {| current_params := p;
        adjustment_history :=
          adjustment_history rc
            ++ [{| requested_delta := d; applied_value := t |}] |})
  else (inl InvalidFeedbackError, rc).

(** The controller after the same feedback was applied [N] times in a row. *)
Fixpoint repeat_feedback (ev : FeedbackEvent) (N : nat) (rc : RatingController)
  : RatingController :=
  match N with
  | O => rc
  | S k => snd (apply_feedback ev (repeat_feedback ev k rc))
  end.

Definition in_bounds (rc : RatingController) : Prop :=
  (T_min <= temperature (current_params rc) /\
   temperature (current_params rc) <= T_max)%Q.

End Rating.

(** ** The remaining commands and the command loop *)

Section Commands.

Variable Model : Type.
Variable RatingManager : Type.

(** [TextPreprocessor.clean_text], [TextPreprocessor.basic_spell_correct]
    and [TextGenerator.generate_response]: the value returned or, in [inl],
    the text of the exception raised.
    [DataManager.save_conversation_history] and the writing of the export
    file ([open] and [json.dump]): [Some] holds the text of the exception
    raised. *)
Variable clean_text : string -> string + string.
Variable basic_spell_correct : string -> string + string.
Variable generate_response : string -> string + string.
Variable save_conversation_history : list exchange -> option string.
Variable write_export : string -> list exchange -> option string.

(** [SBTConsole.__init__]: the history is the one the data manager
    loaded, and no model has been built. *)
Definition init (rm : RatingManager) (loaded : list exchange)
  : SBTConsole Model RatingManager :=
  {| rating_manager := rm;
     conversation_history := loaded;
     bigram_model := None;
     trigram_model := None |}.

Definition set_conversation_history (self : SBTConsole Model RatingManager)
    (log : list exchange) : SBTConsole Model RatingManager :=
  {| rating_manager := rating_manager _ _ self;
     conversation_history := log;
     bigram_model := bigram_model _ _ self;
     trigram_model := trigram_model _ _ self |}.

(** How one of these commands ends: it returns after printing some
    lines, or an exception leaves it; either way with the console as it
    is at that moment. *)
Inductive ending : Type :=
| Ends (printed : list string) (after : SBTConsole Model RatingManager)
| Escapes (error : string) (after : SBTConsole Model RatingManager).

Definition do_preprocess (self : SBTConsole Model RatingManager)
    (arg : string) : ending :=
  match arg with
  | EmptyString => Ends ["Please provide text to preprocess."] self
  | _ =>
      match clean_text arg with
      | inl e => Escapes e self
      | inr cleaned_text =>
          Ends [("Original text: " ++ arg)%string;
                ("Preprocessed text: " ++ cleaned_text)%string] self
      end
  end.

Definition do_generate (self : SBTConsole Model RatingManager)
    (arg : string) : ending :=
  match arg with
  | EmptyString =>
      Ends ["Please provide a context for response generation."] self
  | _ =>
      match clean_text arg with
      | inl e => Escapes e self
      | inr cleaned_input =>
          match generate_response cleaned_input with
          | inl e => Escapes e self
          | inr response =>
              let exchange := {| input := arg; response := response |} in
              let self' :=
                set_conversation_history self
                  (conversation_history _ _ self ++ [exchange]) in
              match save_conversation_history
                      (conversation_history _ _ self') with
              | Some e => Escapes e self'
              | None =>
                  Ends [("Input: " ++ arg)%string;
                        ("Generated Response: " ++ response)%string] self'
              end
          end
      end
  end.

Definition do_spell_correct (self : SBTConsole Model RatingManager)
    (arg : string) : ending :=
  match arg with
  | EmptyString => Ends ["Please provide text for spell correction."] self
  | _ =>
      match basic_spell_correct arg with
      | inl e => Escapes e self
      | inr corrected_text =>
          Ends [("Original text: " ++ arg)%string;
                ("Corrected text: " ++ corrected_text)%string] self
      end
  end.

Definition do_export (self : SBTConsole Model RatingManager)
    (arg : string) : ending :=
  let filename :=
    match arg with
    | EmptyString => "conversation_export.json"
    | _ => arg
    end in
  match write_export filename (conversation_history _ _ self) with
  | None =>
      Ends [("Conversation history exported to " ++ filename)%string] self
  | Some e => Ends [("Error exporting history: " ++ e)%string] self
  end.

Definition do_clear_history (self : SBTConsole Model RatingManager)
    (arg : string) : ending :=
  let self' := set_conversation_history self [] in
  match save_conversation_history (conversation_history _ _ self') with
  | Some e => Escapes e self'
  | None => Ends ["Conversation history has been cleared."] self'
  end.

(** [do_exit]: the line printed and the value returned, which stops the
    loop. *)
Definition do_exit (self : SBTConsole Model RatingManager) (arg : string)
  : list string * bool :=
  (["Exiting Smart Bot Technology console. Goodbye!"], true).

End Commands.

Arguments Ends {Model RatingManager} printed after.
Arguments Escapes {Model RatingManager} error after.

(** What the collaborators do when one command runs.  A session gives one
    such record per command, so that nothing is assumed about how they
    behave from one command to the next. *)
Record collaborators (Model RatingManager : Type) : Type := {
  co_process_feedback :
    string -> RatingManager -> RatingManager * option string;
  co_get_current_params : RatingManager -> string + list (string * string);
  co_path_exists : string -> bool;
  co_read_file : string -> string + string;
  co_clean_text : string -> string + string;
  co_build_ngram_model : list string -> Z -> string + Model;
  co_basic_spell_correct : string -> string + string;
  co_generate_response : string -> string + string;
  co_save_conversation_history : list exchange -> option string;
  co_write_export : string -> list exchange -> option string
}.

(** The commands of the console, each with the rest of its line. *)
Inductive command : Type :=
| cmd_preprocess (arg : string)
| cmd_generate (arg : string)
| cmd_history (arg : string)
| cmd_feedback (arg : string)
| cmd_spell_correct (arg : string)
| cmd_export (arg : string)
| cmd_clear_history (arg : string)
| cmd_build_ngram (arg : string)
| cmd_predict_next_word (arg : string)
| cmd_generate_sequence (arg : string)
| cmd_exit (arg : string).

(** Where the loop stands after a command: it goes on, [do_exit] stopped
    it, or an exception left the command and with it the loop. *)
Inductive status : Type :=
| Running
| Exited
| Crashed (error : string).

Definition exn_name (e : exn) : string :=
  match e with
  | ValueError => "ValueError"
  | IndexError => "IndexError"
  end.

Section Loop.

Variable Model : Type.
Variable RatingManager : Type.
Variable py_int : string -> option Z.

Definition after_ending (e : ending Model RatingManager)
  : status * SBTConsole Model RatingManager :=
  match e with
  | Ends _ after => (Running, after)
  | Escapes error after => (Crashed error, after)
  end.

(** One command dispatched to its [do_] method: the state of the loop and
    the console afterwards.  [do_history], [do_export],
    [do_predict_next_word] and [do_generate_sequence] assign nothing and
    let no exception out. *)
Definition onecmd (c : collaborators Model RatingManager) (cmd : command)
    (self : SBTConsole Model RatingManager)
  : status * SBTConsole Model RatingManager :=
  match cmd with
  | cmd_preprocess arg =>
      after_ending (do_preprocess _ _ (co_clean_text _ _ c) self arg)
  | cmd_generate arg =>
      after_ending
        (do_generate _ _ (co_clean_text _ _ c) (co_generate_response _ _ c)
           (co_save_conversation_history _ _ c) self arg)
  | cmd_history arg => (Running, self)
  | cmd_feedback arg =>
      (Running,
       snd (do_feedback _ _ (co_process_feedback _ _ c)
              (co_get_current_params _ _ c) self arg))
  | cmd_spell_correct arg =>
      after_ending
        (do_spell_correct _ _ (co_basic_spell_correct _ _ c) self arg)
  | cmd_export arg =>
      after_ending (do_export _ _ (co_write_export _ _ c) self arg)
  | cmd_clear_history arg =>
      after_ending
        (do_clear_history _ _ (co_save_conversation_history _ _ c) self arg)
  | cmd_build_ngram arg =>
      match do_build_ngram _ _ (co_path_exists _ _ c) (co_read_file _ _ c)
              (co_clean_text _ _ c) (co_build_ngram_model _ _ c) py_int
              self arg with
      | Raises _ _ e => (Crashed (exn_name e), self)
      | Returns _ _ _ after => (Running, after)
      end
  | cmd_predict_next_word arg => (Running, self)
  | cmd_generate_sequence arg => (Running, self)
  | cmd_exit arg => (Exited, self)
  end.

(** [cmdloop] over the commands that a session dispatches to the [do_]
    methods, in the order of the dispatches: it runs them and stops at the
    first that does not leave it running.  What is typed comes before
    that: see [dispatched] for how lines become dispatches. *)
Fixpoint cmdloop (script : list (collaborators Model RatingManager * command))
    (self : SBTConsole Model RatingManager)
  : status * SBTConsole Model RatingManager :=
  match script with
  | [] => (Running, self)
  | (c, cmd) :: rest =>
      match onecmd c cmd self with
      | (Running, after) => cmdloop rest after
      | stopped => stopped
      end
  end.

End Loop.

(** ** From lines to commands *)

(** The lines of a session, as [cmd.Cmd.onecmd] tells them apart (the
    console overrides none of [onecmd], [emptyline] and [default]): a line
    that names one of the commands; an empty line; a line that starts with
    [!], which is reported as unknown and not remembered, there being no
    [do_shell]; and any other line ([help], [?], [EOF], a word that names
    no command), which replaces the remembered line and reaches none of
    the console's methods. *)
Inductive line : Type :=
| typed (cmd : command)
| empty_line
| bang_line
| other_line.

(** The commands dispatched for the lines of a session, each with the
    collaborators of the moment it runs.  [lastcmd] is the remembered
    line, when it names a command: [emptyline] runs it again, and does
    nothing when no such line is remembered. *)
Fixpoint dispatched {World : Type} (lastcmd : option command)
    (lines : list (World * line)) : list (World * command) :=
  match lines with
  | [] => []
  | (c, typed cmd) :: rest => (c, cmd) :: dispatched (Some cmd) rest
  | (c, empty_line) :: rest =>
      match lastcmd with
      | Some cmd => (c, cmd) :: dispatched lastcmd rest
      | None => dispatched lastcmd rest
      end
  | (c, bang_line) :: rest => dispatched lastcmd rest
  | (c, other_line) :: rest => dispatched None rest
  end.

(** [main]: a console is made, with the rating manager and the history
    its collaborators give it, and its loop reads the lines. *)
Definition main {Model RatingManager : Type} (py_int : string -> option Z)
    (rm : RatingManager) (loaded : list exchange)
    (lines : list (collaborators Model RatingManager * line))
  : status * SBTConsole Model RatingManager :=
  cmdloop Model RatingManager py_int (dispatched None lines)
    (init Model RatingManager rm loaded).

(** ** What sessions are described with *)

(** The lines that can run [generate]: one that names it, and an empty
    line, which runs the last command again. *)
Definition may_generate (l : line) : bool :=
  match l with
  | typed (cmd_generate _) => true
  | empty_line => true
  | _ => false
  end.

(** The [generate] commands of a script. *)
Definition is_generate (cmd : command) : bool :=
  match cmd with
  | cmd_generate _ => true
  | _ => false
  end.

(** What can make a command let an exception out: [int] on the second
    of exactly two words of [build_ngram], or a collaborator that raises
    outside a [try] block. *)
Definition crash_cause {Model RatingManager : Type}
    (py_int : string -> option Z) (c : collaborators Model RatingManager)
    (cmd : command) (error : string) : Prop :=
  match cmd with
  | cmd_build_ngram arg =>
      error = "ValueError" /\
      exists f k, split arg = [f; k] /\ py_int k = None
  | cmd_preprocess arg => co_clean_text _ _ c arg = inl error
  | cmd_spell_correct arg => co_basic_spell_correct _ _ c arg = inl error
  | cmd_generate arg =>
      co_clean_text _ _ c arg = inl error \/
      (exists cleaned, co_generate_response _ _ c cleaned = inl error) \/
      (exists saved, co_save_conversation_history _ _ c saved = Some error)
  | cmd_clear_history _ =>
      co_save_conversation_history _ _ c [] = Some error
  | _ => False
  end.

(** ** Sample values for the worked examples *)

(** A console whose models are opaque, with a bigram model already built
    and a rating manager whose temperature parameter stands at 0.5. *)
Definition sample_console : SBTConsole unit RatingController :=
  {| rating_manager :=
       {| current_params := {| temperature := (1 # 2)%Q |};
          adjustment_history := [] |};
     conversation_history := [];
     bigram_model := Some tt;
     trigram_model := None |}.

Definition always_truthy (m : unit) : bool := true.

(** A file system that holds the one file [corpus.txt], a preprocessor
    that leaves its text alone and a model builder that always succeeds. *)
Definition sample_path_exists (f : string) : bool := String.eqb f "corpus.txt".
Definition sample_read_file (f : string) : string + string := inr "a b a b a b".
Definition sample_clean_text (text : string) : string + string := inr text.
Definition sample_build_ngram_model (tokens : list string) (n : Z)
  : string + unit := inr tt.

Definition sample_build_ngram : SBTConsole unit RatingController -> string ->
    outcome unit RatingController :=
  do_build_ngram unit RatingController sample_path_exists sample_read_file
    sample_clean_text sample_build_ngram_model decimal_int.

(** The collaborators of a session in which nothing fails: the rating
    manager takes any feedback and has no parameters to show, the
    generator answers with the text it was given, and saving and exporting
    succeed. *)
Definition sample_world : collaborators unit RatingController :=
  {| co_process_feedback := fun _ rm => (rm, None);
     co_get_current_params := fun _ => inr [];
     co_path_exists := sample_path_exists;
     co_read_file := sample_read_file;
     co_clean_text := sample_clean_text;
     co_build_ngram_model := sample_build_ngram_model;
     co_basic_spell_correct := fun text => inr text;
     co_generate_response := fun text => inr text;
     co_save_conversation_history := fun _ => None;
     co_write_export := fun _ _ => None |}.

(** A console in which both models have been built. *)
Definition both_models_console : SBTConsole unit RatingController :=
  {| rating_manager := rating_manager _ _ sample_console;
     conversation_history := [];
     bigram_model := Some tt;
     trigram_model := Some tt |}.

(** The same console with two exchanges in its history. *)
Definition sample_history : list exchange :=
  [ {| input := "hi"; response := "hello" |};
    {| input := "how are you"; response := "fine" |} ].

Definition talkative_console : SBTConsole unit RatingController :=
  {| rating_manager := rating_manager _ _ sample_console;
     conversation_history := sample_history;
     bigram_model := Some tt;
     trigram_model := None |}.

(** A corpus in which [b] follows [a] eleven times and [c] ten times, and
    the bigram model built from it. *)
Definition close_corpus : list Token :=
  concat (repeat ["a"; "b"] 11) ++ concat (repeat ["a"; "c"] 10).

Definition close_counts : NGramModel :=
  {| order := Bigram;
     counts := [(["a"], [("b", 11); ("c", 10)]);
                (["b"], [("a", 11)]);
                (["c"], [("a", 9)])] |}.

(** A controller with the interval [[0.1, 2.0]] of the spec's example and
    a step of 0.1, started at a given temperature. *)
Definition sample_controller (t : Q) : RatingController :=
  {| current_params := {| temperature := t |}; adjustment_history := [] |}.

Definition sample_feedback : FeedbackEvent -> RatingController ->
    (feedback_error + GenerationParams) * RatingController :=
  apply_feedback (1 # 10)%Q 2%Q (1 # 10)%Q (1 # 20)%Q.

Definition sample_repeat : FeedbackEvent -> nat -> RatingController ->
    RatingController :=
  repeat_feedback (1 # 10)%Q 2%Q (1 # 10)%Q (1 # 20)%Q.

(** Number of non-whitespace characters of a string, and the total length
    of a list of words: the measures that relate [split] and [join]. *)
Fixpoint nonspace_count (s : string) : nat :=
  match s with
  | EmptyString => 0
  | String c rest => if isspace c then nonspace_count rest
                     else S (nonspace_count rest)
  end.

Definition total_length (words : list string) : nat :=
  list_sum (map String.length words).

(** * Properties of the string primitives *)

Example split_collapses_whitespace :
  split "  the quick   brown fox " = ["the"; "quick"; "brown"; "fox"].
Proof. reflexivity. Qed.

Example join_with_blank : join " " ["the"; "quick"] = "the quick".
Proof. reflexivity. Qed.

Example index_from_the_end :
  index ["a"; "b"] (-1)%Z = Some "b" /\ index ["a"; "b"] (-3)%Z = None.
Proof. split; reflexivity. Qed.

Example slice_drops_last_three :
  slice_to ["a"; "b"; "c"; "d"; "e"] (-3)%Z = ["a"; "b"] /\
  slice_to ["a"; "b"] (-3)%Z = [].
Proof. split; reflexivity. Qed.

Lemma length_snoc (w : string) (c : ascii) :
  String.length (w ++ String c EmptyString) = S (String.length w).
Proof.
  induction w as [|a w IH]; simpl; [reflexivity | now rewrite IH].
Qed.

Lemma snoc_not_empty (w : string) (c : ascii) :
  (w ++ String c EmptyString)%string <> EmptyString.
Proof. destruct w; discriminate. Qed.

Lemma total_length_cons (w : string) (words : list string) :
  total_length (w :: words) = String.length w + total_length words.
Proof. reflexivity. Qed.

(** Every non-whitespace character of the text lands in exactly one word. *)
Lemma split_from_total_length (s : string) :
  forall word,
    total_length (split_from word s) = String.length word + nonspace_count s.
Proof.
  induction s as [|c rest IH]; intros word.
  - destruct word; cbn [split_from nonspace_count].
    + reflexivity.
    + rewrite total_length_cons. cbn. lia.
  - cbn [split_from nonspace_count]. destruct (isspace c).
    + destruct word as [|a w].
      * apply IH.
      * rewrite total_length_cons, IH. reflexivity.
    + rewrite IH, length_snoc. lia.
Qed.

Lemma split_total_length (s : string) :
  total_length (split s) = nonspace_count s.
Proof. unfold split. now rewrite split_from_total_length. Qed.

(** [split] never yields an empty word. *)
Lemma split_from_nonempty (s : string) :
  forall word, Forall (fun w => w <> EmptyString) (split_from word s).
Proof.
  induction s as [|c rest IH]; intros word; simpl.
  - destruct word; constructor; [discriminate | constructor].
  - destruct (isspace c).
    + destruct word; [apply IH | constructor; [discriminate | apply IH]].
    + apply IH.
Qed.

Lemma split_nonempty (s : string) :
  Forall (fun w => w <> EmptyString) (split s).
Proof. apply split_from_nonempty. Qed.

Lemma nonspace_count_app (a b : string) :
  nonspace_count (a ++ b) = nonspace_count a + nonspace_count b.
Proof.
  induction a as [|c a IH]; simpl; [reflexivity|].
  destruct (isspace c); rewrite IH; reflexivity.
Qed.

Lemma nonspace_count_le_length (s : string) :
  nonspace_count s <= String.length s.
Proof.
  induction s as [|c s IH]; simpl; [lia|]. destruct (isspace c); lia.
Qed.

(** Joining words with one blank adds no non-whitespace character. *)
Lemma nonspace_count_join (words : list string) :
  nonspace_count (join " " words) <= total_length words.
Proof.
  induction words as [|w rest IH]; [apply Nat.le_refl|].
  rewrite total_length_cons.
  pose proof (nonspace_count_le_length w) as Hw.
  destruct rest as [|w' rest'].
  - cbn [join]. unfold total_length; cbn. lia.
  - change (join " " (w :: w' :: rest'))
      with (w ++ " " ++ join " " (w' :: rest'))%string.
    rewrite !nonspace_count_app.
    change (nonspace_count " ") with 0. lia.
Qed.

Lemma total_length_app (a b : list string) :
  total_length (a ++ b) = total_length a + total_length b.
Proof. unfold total_length. now rewrite map_app, list_sum_app. Qed.

Lemma nonempty_length_pos (w : string) :
  w <> EmptyString -> 0 < String.length w.
Proof. destruct w; [congruence | simpl; lia]. Qed.

(** Dropping at least one word of a [split] changes the text: the joined
    prefix has fewer non-whitespace characters than the argument. *)
Lemma join_strict_prefix_differs (arg : string) (front back : list string) :
  split arg = front ++ back -> back <> [] -> join " " front <> arg.
Proof.
  intros Hsplit Hback Heq.
  pose proof (split_total_length arg) as Htot.
  pose proof (split_nonempty arg) as Hne.
  rewrite Hsplit in Htot, Hne.
  rewrite total_length_app in Htot.
  apply Forall_app in Hne as [_ Hne].
  destruct back as [|b back']; [congruence|].
  apply Forall_inv in Hne. apply nonempty_length_pos in Hne.
  pose proof (nonspace_count_join front) as Hj.
  rewrite Heq in Hj.
  rewrite total_length_cons in Htot. lia.
Qed.

(** ** Python indexing and slicing on a list that ends in three words *)

Lemma index_from_end {A : Type} (l : list A) (k : nat) :
  0 < k <= List.length l ->
  index l (- Z.of_nat k)%Z = nth_error l (List.length l - k).
Proof.
  intros Hk. unfold index.
  destruct (Z.ltb_spec (- Z.of_nat k) 0) as [_|Hge]; [|lia].
  destruct (Z.leb_spec 0 (Z.of_nat (List.length l) + - Z.of_nat k)) as [_|Hlt];
    [|lia].
  destruct (Z.ltb_spec (Z.of_nat (List.length l) + - Z.of_nat k)
              (Z.of_nat (List.length l))) as [_|Hge]; [|lia].
  cbn [andb]. f_equal. lia.
Qed.

Lemma index_too_far {A : Type} (l : list A) (k : nat) :
  List.length l < k -> index l (- Z.of_nat k)%Z = None.
Proof.
  intros Hk. unfold index.
  destruct (Z.ltb_spec (- Z.of_nat k) 0) as [_|Hge]; [|lia].
  destruct (Z.leb_spec 0 (Z.of_nat (List.length l) + - Z.of_nat k)) as [Hle|_];
    [lia | reflexivity].
Qed.

Lemma index_last3 {A : Type} (front : list A) (x y z : A) :
  index (front ++ [x; y; z]) (-3)%Z = Some x /\
  index (front ++ [x; y; z]) (-2)%Z = Some y /\
  index (front ++ [x; y; z]) (-1)%Z = Some z.
Proof.
  assert (Hlen : List.length (front ++ [x; y; z]) = List.length front + 3)
    by (rewrite length_app; reflexivity).
  repeat split.
  - rewrite (index_from_end _ 3) by lia.
    rewrite Hlen, nth_error_app2 by lia.
    now replace (List.length front + 3 - 3 - List.length front) with 0 by lia.
  - rewrite (index_from_end _ 2) by lia.
    rewrite Hlen, nth_error_app2 by lia.
    now replace (List.length front + 3 - 2 - List.length front) with 1 by lia.
  - rewrite (index_from_end _ 1) by lia.
    rewrite Hlen, nth_error_app2 by lia.
    now replace (List.length front + 3 - 1 - List.length front) with 2 by lia.
Qed.

Lemma slice_to_drop {A : Type} (front back : list A) :
  back <> [] ->
  slice_to (front ++ back) (- Z.of_nat (List.length back))%Z = front.
Proof.
  intros Hback. unfold slice_to. rewrite length_app.
  assert (0 < List.length back) by (destruct back; [congruence | simpl; lia]).
  replace (- Z.of_nat (List.length back) <? 0)%Z with true
    by (symmetry; apply Z.ltb_lt; lia).
  replace (Z.max 0 (Z.of_nat (List.length front + List.length back) +
                    - Z.of_nat (List.length back)))%Z
    with (Z.of_nat (List.length front)) by lia.
  rewrite Nat2Z.id, firstn_app, Nat.sub_diag, firstn_all. simpl.
  apply app_nil_r.
Qed.

(** [l[start:]] drops [start] elements for a bound that is not negative,
    and keeps the last [-start] for a negative one. *)
Lemma slice_from_skipn {A : Type} (l : list A) (start : Z) :
  slice_from l start =
  skipn (if (start <? 0)%Z then List.length l - Z.to_nat (- start)
         else Z.to_nat start) l.
Proof.
  unfold slice_from. destruct (Z.ltb_spec start 0) as [Hneg|Hpos].
  - f_equal. lia.
  - destruct (Z.min_spec start (Z.of_nat (List.length l))) as [[_ ->]|[Hle ->]];
      [reflexivity|].
    rewrite Nat2Z.id, !skipn_all2; [reflexivity | lia | lia].
Qed.

Lemma ends_in_three {A : Type} (l : list A) :
  3 <= List.length l ->
  exists front x y z, l = front ++ [x; y; z].
Proof.
  intros Hlen.
  exists (firstn (List.length l - 3) l).
  pose proof (firstn_skipn (List.length l - 3) l) as Hcut.
  pose proof (length_skipn (List.length l - 3) l) as Hrest.
  destruct (skipn (List.length l - 3) l) as [|x [|y [|z [|]]]];
    simpl in Hrest; try lia.
  exists x, y, z. now rewrite Hcut.
Qed.

(** * Properties of the console commands *)

Section ConsoleFacts.

Variable Model : Type.
Variable model_truthy : Model -> bool.
Variable RatingManager : Type.
Variable process_feedback : string -> RatingManager -> RatingManager * option string.
Variable get_current_params : RatingManager -> string + list (string * string).
Variable path_exists : string -> bool.
Variable read_file : string -> string + string.
Variable clean_text : string -> string + string.
Variable build_ngram_model : list string -> Z -> string + Model.
Variable py_int : string -> option Z.
Variable py_float : string -> option float.

Local Abbreviation console := (SBTConsole Model RatingManager).
Local Abbreviation generate_sequence :=
  (do_generate_sequence Model model_truthy RatingManager py_int py_float).
Local Abbreviation predict_next_word :=
  (do_predict_next_word Model model_truthy RatingManager).
Local Abbreviation options := (parse_options py_int py_float).
Local Abbreviation choose := (select_model Model model_truthy RatingManager).
Local Abbreviation feedback :=
  (do_feedback Model RatingManager process_feedback get_current_params).
Local Abbreviation with_rating := (set_rating_manager Model RatingManager).
Local Abbreviation build_ngram :=
  (do_build_ngram Model RatingManager path_exists read_file clean_text
     build_ngram_model py_int).
Local Abbreviation history := (do_history Model RatingManager py_int).

(** The optional arguments are read off the last three words only. *)
Lemma parse_options_last3 (front : list string) (x y z : string) :
  options (front ++ [x; y; z]) = options [x; y; z].
Proof.
  unfold parse_options.
  replace (1 <? List.length (front ++ [x; y; z]))%nat with true
    by (symmetry; apply Nat.ltb_lt; rewrite length_app; simpl; lia).
  change (1 <? List.length [x; y; z])%nat with true. cbv iota.
  destruct (index_last3 front x y z) as (H3 & H2 & H1).
  destruct (index_last3 [] x y z) as (K3 & K2 & K1).
  cbn [app] in K3, K2, K1.
  unfold try_pass, assign_length, assign_model_type, assign_temperature.
  rewrite H3, H2, H1, K3, K2, K1. reflexivity.
Qed.

(** With fewer than three words the first statement of the [try] block
    raises [IndexError] and every default stays. *)
Lemma parse_options_short (parts : list string) :
  List.length parts <= 2 -> options parts = default_options.
Proof.
  intros Hlen. unfold parse_options.
  destruct (Nat.ltb_spec 1 (List.length parts)) as [_|_]; [|reflexivity].
  pose proof (index_too_far parts 3) as Hfar.
  change (- Z.of_nat 3)%Z with (-3)%Z in Hfar.
  unfold try_pass, assign_length.
  now rewrite Hfar by lia.
Qed.

Lemma select_model_order (self : console) (model_type : string)
    (m : Model) (n : Z) :
  choose self model_type = inr (m, n) ->
  n = (if String.eqb model_type "bigram" then 2 else 3)%Z.
Proof.
  unfold select_model.
  destruct (String.eqb model_type "bigram").
  - destruct (bigram_model _ _ self) as [b|]; [|discriminate].
    destruct (model_truthy b); [|discriminate]. congruence.
  - destruct (trigram_model _ _ self) as [b|]; [|discriminate].
    destruct (model_truthy b); [|discriminate]. congruence.
Qed.

Lemma select_model_slot (self : console) (model_type : string)
    (m : Model) (n : Z) :
  choose self model_type = inr (m, n) ->
  (n = 2%Z /\ bigram_model _ _ self = Some m) \/ (n = 3%Z /\ trigram_model _ _ self = Some m).
Proof.
  unfold select_model. destruct (String.eqb model_type "bigram").
  - destruct (bigram_model _ _ self) as [b|]; [|discriminate].
    destruct (model_truthy b); [|discriminate].
    intros H; inversion H; subst. now left.
  - destruct (trigram_model _ _ self) as [b|]; [|discriminate].
    destruct (model_truthy b); [|discriminate].
    intros H; inversion H; subst. now right.
Qed.

(** When the command reaches the generator, its arguments are the seed
    computed by [seed_of] and the options computed by [parse_options]. *)
Lemma generate_sequence_call (self : console) (arg : string)
    (model : Model) (seed : string) (len n : Z) (T : float) :
  generate_sequence self arg = GenerateSequence model seed len n T ->
  arg <> EmptyString /\
  seed = seed_of arg (split arg) /\
  len = opt_length (options (split arg)) /\
  T = opt_temperature (options (split arg)) /\
  choose self (opt_model_type (options (split arg))) = inr (model, n).
Proof.
  unfold do_generate_sequence. intros H.
  destruct arg as [|a s]; [discriminate|].
  destruct (choose self _) as [msg|[m k]] eqn:Hsel; [discriminate|].
  inversion H; subst. repeat split; try reflexivity. discriminate.
Qed.

(** What [parse_options] yields on three words, statement by statement. *)
Lemma parse_options_three (x y z : string) :
  let model_type := if str_in y ["bigram"; "trigram"] then y else "bigram" in
  options [x; y; z] =
  match (if isdigit x then py_int x else Some 10%Z) with
  | None => default_options
  | Some len =>
      {| opt_length := len;
         opt_model_type := model_type;
         opt_temperature :=
           if String.eqb z model_type then Finite (8 # 10)%Q
           else match py_float z with
                | Some t => t
                | None => Finite (8 # 10)%Q
                end |}
  end.
Proof.
  unfold parse_options. change (1 <? List.length [x; y; z])%nat with true.
  cbv iota.
  destruct (index_last3 [] x y z) as (K3 & K2 & K1). cbn [app] in K3, K2, K1.
  unfold try_pass, assign_length, assign_model_type, assign_temperature.
  rewrite K3, K2, K1.
  destruct (isdigit x).
  - destruct (py_int x) as [k|]; [|reflexivity].
    cbn [opt_model_type opt_length opt_temperature default_options].
    destruct (str_in y ["bigram"; "trigram"]);
      cbn [opt_model_type opt_length opt_temperature default_options].
    + destruct (String.eqb z y); cbn [negb]; [reflexivity|].
      destruct (py_float z); reflexivity.
    + destruct (String.eqb z "bigram"); cbn [negb]; [reflexivity|].
      destruct (py_float z); reflexivity.
  - cbn [opt_model_type opt_length opt_temperature default_options].
    destruct (str_in y ["bigram"; "trigram"]);
      cbn [opt_model_type opt_length opt_temperature default_options].
    + destruct (String.eqb z y); cbn [negb]; [reflexivity|].
      destruct (py_float z); reflexivity.
    + destruct (String.eqb z "bigram"); cbn [negb]; [reflexivity|].
      destruct (py_float z); reflexivity.
Qed.

Lemma seed_of_short (arg : string) (parts : list string) :
  List.length parts <= 2 -> seed_of arg parts = arg.
Proof.
  intros Hlen. unfold seed_of.
  destruct (Nat.ltb_spec 3 (List.length parts)); [lia|].
  destruct (Nat.ltb_spec 2 (List.length parts)); [lia | reflexivity].
Qed.

Lemma seed_of_three (arg w x y : string) :
  seed_of arg [w; x; y] = w.
Proof. reflexivity. Qed.

Lemma seed_of_long (arg : string) (front : list string) (x y z : string) :
  front <> [] -> seed_of arg (front ++ [x; y; z]) = join " " front.
Proof.
  intros Hfront. unfold seed_of.
  assert (3 < List.length (front ++ [x; y; z]))
    by (rewrite length_app; destruct front; [congruence | simpl; lia]).
  destruct (Nat.ltb_spec 3 (List.length (front ++ [x; y; z]))); [|lia].
  f_equal. apply (slice_to_drop front [x; y; z]). discriminate.
Qed.

(** The model type that the second of the last three words selects. *)
Lemma model_type_word (y : string) :
  (if str_in y ["bigram"; "trigram"] then y else "bigram") =
  (if String.eqb y "trigram" then "trigram" else "bigram").
Proof.
  unfold str_in. cbn [existsb].
  destruct (String.eqb_spec y "bigram") as [->|_]; [reflexivity|].
  destruct (String.eqb_spec y "trigram") as [->|_]; reflexivity.
Qed.

(** C10.  When [generate_sequence] reaches the generator, the seed it
    passes is the whole argument only if the argument has at most two
    words.  With exactly three words the seed is the first word alone.
    With more than three, the last three words [x y z] are cut off the
    seed and read as options: [x], when it is all digits, is the length
    ([int x]), and the length is 10 otherwise; [y], when it is
    [trigram], selects the trigram model and [n = 3], and any other [y]
    the bigram model and [n = 2]; [z], unless it is the model type
    itself, is the temperature ([float z]), which is 0.8 when it is the
    model type or [float] rejects it.  One exception: when [x] is all
    digits and [int] rejects it, nothing is read and length, model and
    temperature are 10, bigram and 0.8. *)
Theorem generate_sequence_seed_text (self : console) (arg : string)
    (model : Model) (seed : string) (len n : Z) (T : float) :
  generate_sequence self arg = GenerateSequence model seed len n T ->
  (List.length (split arg) <= 2 -> seed = arg) /\
  (List.length (split arg) = 3 ->
     exists w x y, split arg = [w; x; y] /\ seed = w) /\
  (3 < List.length (split arg) ->
     exists front x y z,
       split arg = front ++ [x; y; z] /\ front <> [] /\
       seed = join " " front /\
       (isdigit x = false -> len = 10%Z) /\
       (forall k, isdigit x = true -> py_int x = Some k -> len = k) /\
       (isdigit x = true -> py_int x = None ->
          len = 10%Z /\ n = 2%Z /\ bigram_model _ _ self = Some model /\
          T = Finite (8 # 10)%Q) /\
       ((isdigit x = true -> py_int x <> None) ->
          let model_type :=
            if String.eqb y "trigram" then "trigram" else "bigram" in
          (y = "trigram" ->
             n = 3%Z /\ trigram_model _ _ self = Some model) /\
          (y <> "trigram" ->
             n = 2%Z /\ bigram_model _ _ self = Some model) /\
          (forall t, z <> model_type -> py_float z = Some t -> T = t) /\
          (z = model_type \/ py_float z = None -> T = Finite (8 # 10)%Q))) /\
  (seed = arg -> List.length (split arg) <= 2).
Proof.
  intros Hcall.
  apply generate_sequence_call in Hcall as (_ & Hseed & Hlen & HT & Hsel).
  assert (Hthree : List.length (split arg) = 3 ->
                   exists w x y, split arg = [w; x; y] /\ seed = w).
  { intros H3. destruct (split arg) as [|w [|x [|y [|]]]]; try discriminate.
    exists w, x, y. split; [reflexivity|]. now rewrite Hseed. }
  assert (Hlong : 3 < List.length (split arg) ->
                  exists front x y z,
                    split arg = front ++ [x; y; z] /\ front <> [] /\
                    seed = join " " front /\
                    options (split arg) = options [x; y; z]).
  { intros H4.
    destruct (ends_in_three (split arg)) as (front & x & y & z & Hparts); [lia|].
    assert (Hfront : front <> []).
    { intros ->. rewrite Hparts in H4. simpl in H4. lia. }
    exists front, x, y, z. rewrite Hparts.
    repeat split; try assumption.
    - rewrite Hseed, Hparts. now apply seed_of_long.
    - apply parse_options_last3. }
  split; [|split; [assumption|split]].
  - intros H2. rewrite Hseed. now apply seed_of_short.
  - intros H4. destruct (Hlong H4) as (front & x & y & z & Hparts & Hfront & Hj & Hopt).
    exists front, x, y, z.
    do 3 (split; [assumption|]).
    rewrite Hopt in Hlen, HT, Hsel. clear Hopt.
    rewrite parse_options_three in Hlen, HT, Hsel. cbv zeta in Hlen, HT, Hsel.
    rewrite model_type_word in Hlen, HT, Hsel.
    pose proof (select_model_slot self _ _ _ Hsel)
      as Hslot.
    destruct (isdigit x).
    + destruct (py_int x) as [k|].
      * cbn [opt_length opt_model_type opt_temperature] in Hlen, HT, Hslot.
        split; [discriminate|]. split; [intros k' _ Hk; congruence|].
        split; [discriminate|]. intros _. cbv zeta.
        destruct (String.eqb_spec y "trigram") as [Hy|Hy].
        { split; [intros _; destruct Hslot as [[-> Hb]|[-> Ht]];
                  [apply select_model_order in Hsel; discriminate Hsel
                  |now split]|].
          split; [congruence|]. split.
          - intros t Hz Hf. apply String.eqb_neq in Hz.
            now rewrite HT, Hz, Hf.
          - intros [Hz|Hf]; rewrite HT.
            + apply String.eqb_eq in Hz. now rewrite Hz.
            + rewrite Hf. now destruct (String.eqb z "trigram"). }
        { split; [congruence|].
          split; [intros _; destruct Hslot as [[-> Hb]|[-> Ht]];
                  [now split
                  |apply select_model_order in Hsel; discriminate Hsel]|].
          split.
          - intros t Hz Hf. apply String.eqb_neq in Hz.
            now rewrite HT, Hz, Hf.
          - intros [Hz|Hf]; rewrite HT.
            + apply String.eqb_eq in Hz. now rewrite Hz.
            + rewrite Hf. now destruct (String.eqb z "bigram"). }
      * cbn [opt_length opt_model_type opt_temperature default_options]
          in Hlen, HT, Hslot.
        split; [discriminate|]. split; [discriminate|].
        split; [|intros Hint; now destruct Hint].
        intros _ _. split; [assumption|].
        destruct Hslot as [[-> Hb]|[-> Ht]];
          [now repeat split
          |apply select_model_order in Hsel; discriminate Hsel].
    + cbn [opt_length opt_model_type opt_temperature] in Hlen, HT, Hslot.
      split; [intros _; assumption|]. split; [discriminate|].
      split; [discriminate|]. intros _. cbv zeta.
      destruct (String.eqb_spec y "trigram") as [Hy|Hy].
      { split; [intros _; destruct Hslot as [[-> Hb]|[-> Ht]];
                [apply select_model_order in Hsel; discriminate Hsel
                |now split]|].
        split; [congruence|]. split.
        - intros t Hz Hf. apply String.eqb_neq in Hz.
          now rewrite HT, Hz, Hf.
        - intros [Hz|Hf]; rewrite HT.
          + apply String.eqb_eq in Hz. now rewrite Hz.
          + rewrite Hf. now destruct (String.eqb z "trigram"). }
      { split; [congruence|].
        split; [intros _; destruct Hslot as [[-> Hb]|[-> Ht]];
                [now split
                |apply select_model_order in Hsel; discriminate Hsel]|].
        split.
        - intros t Hz Hf. apply String.eqb_neq in Hz.
          now rewrite HT, Hz, Hf.
        - intros [Hz|Hf]; rewrite HT.
          + apply String.eqb_eq in Hz. now rewrite Hz.
          + rewrite Hf. now destruct (String.eqb z "bigram"). }
  - intros Hsame.
    destruct (Nat.le_gt_cases (List.length (split arg)) 2) as [|Hmore];
      [assumption|exfalso].
    destruct (Nat.eq_dec (List.length (split arg)) 3) as [H3|Hne].
    + destruct (Hthree H3) as (w & x & y & Hparts & Hw).
      apply (join_strict_prefix_differs arg [w] [x; y]);
        [assumption | discriminate | cbn [join]; congruence].
    + destruct Hlong as (front & x & y & z & Hparts & _ & Hj & _); [lia|].
      apply (join_strict_prefix_differs arg front [x; y; z]);
        [assumption | discriminate | congruence].
Qed.

(** The temperature handed to the generator is the default or what
    [float] made of the last word. *)
Lemma parse_options_temperature (parts : list string) :
  opt_temperature (options parts) = Finite (8 # 10)%Q \/
  exists z, index parts (-1)%Z = Some z /\
            py_float z = Some (opt_temperature (options parts)).
Proof.
  destruct (Nat.le_gt_cases (List.length parts) 2) as [Hshort|Hlong].
  - left. now rewrite parse_options_short.
  - destruct (ends_in_three parts) as (front & x & y & z & ->); [lia|].
    rewrite parse_options_last3, parse_options_three. cbv zeta.
    destruct (if isdigit x then py_int x else Some 10%Z); [|now left].
    cbn [opt_temperature].
    destruct (String.eqb z _); [now left|].
    destruct (py_float z) as [t|] eqn:Hz; [|now left].
    right. exists z. split; [apply index_last3 | assumption].
Qed.

(** A feedback command changes nothing of the console but the state of
    the rating manager. *)
Lemma do_feedback_state (self : console) (fb : string) :
  exists rm, snd (feedback self fb) = with_rating self rm.
Proof.
  unfold do_feedback. destruct fb as [|a fb'].
  - exists (rating_manager _ _ self). now destruct self.
  - destruct (process_feedback _ _) as [rm raised]. exists rm.
    destruct raised; [reflexivity|].
    destruct (get_current_params rm); reflexivity.
Qed.

(** C4 (as amended).  The temperature that reaches the predictor does not
    come from the rating manager: [predict_next_word] always passes 0.8,
    [generate_sequence] passes 0.8 or the number read from the last word of
    its argument, and both commands issue the same call whatever the state
    of the rating manager, in particular after any feedback command. *)
Theorem prediction_temperature_ignores_rating (self : console)
    (rm : RatingManager) (fb arg : string) :
  predict_next_word (with_rating self rm) arg = predict_next_word self arg /\
  generate_sequence (with_rating self rm) arg = generate_sequence self arg /\
  predict_next_word (snd (feedback self fb)) arg = predict_next_word self arg /\
  generate_sequence (snd (feedback self fb)) arg = generate_sequence self arg /\
  (forall m p n T,
      predict_next_word self arg = PredictNextWord m p n T -> T = Finite (8 # 10)%Q) /\
  (forall m s l n T,
      generate_sequence self arg = GenerateSequence m s l n T ->
      T = Finite (8 # 10)%Q \/
      exists z, index (split arg) (-1)%Z = Some z /\ py_float z = Some T).
Proof.
  assert (Hany : forall r,
             predict_next_word (with_rating self r) arg = predict_next_word self arg /\
             generate_sequence (with_rating self r) arg = generate_sequence self arg)
    by (intros r; split; reflexivity).
  destruct (do_feedback_state self fb) as (rm' & ->).
  destruct (Hany rm) as [Hp Hg]. destruct (Hany rm') as [Hp' Hg'].
  repeat split; try assumption.
  - intros m p n T Hcall. unfold do_predict_next_word in Hcall.
    destruct arg as [|a s]; [discriminate|].
    destruct (choose self _) as [msg|[m' k]]; [discriminate|]. congruence.
  - intros m s l n T Hcall.
    apply generate_sequence_call in Hcall as (_ & _ & _ & -> & _).
    apply parse_options_temperature.
Qed.


(** ** Further properties of the commands *)

(** X1.  With three or more words [build_ngram] reads none of them: it does
    what it does with no argument at all, a bigram model from the
    conversation history. *)
Theorem build_ngram_ignores_long_arguments (self : console) (arg : string) :
  3 <= List.length (split arg) ->
  build_ngram_args py_int (split arg) = inr (None, 2%Z) /\
  build_ngram self arg = build_ngram self EmptyString.
Proof.
  intros Hlen.
  assert (Hargs : build_ngram_args py_int (split arg) = inr (None, 2%Z)).
  { destruct (split arg) as [|a [|b [|c rest]]]; simpl in Hlen; try lia.
    reflexivity. }
  split; [assumption|].
  unfold do_build_ngram. rewrite Hargs. reflexivity.
Qed.

(** X2.  A model built for [n = 2] goes to the bigram slot and a model built
    for any other [n] to the trigram slot; nothing else of the console
    changes. *)
Theorem build_ngram_slot (self after : console) (arg : string)
    (printed : list string) :
  build_ngram self arg = Returns _ _ printed after ->
  rating_manager _ _ after = rating_manager _ _ self /\
  conversation_history _ _ after = conversation_history _ _ self /\
  (bigram_model _ _ after <> bigram_model _ _ self ->
     exists filepath,
       build_ngram_args py_int (split arg) = inr (filepath, 2%Z) /\
       trigram_model _ _ after = trigram_model _ _ self) /\
  (trigram_model _ _ after <> trigram_model _ _ self ->
     exists filepath n,
       build_ngram_args py_int (split arg) = inr (filepath, n) /\
       n <> 2%Z /\
       bigram_model _ _ after = bigram_model _ _ self).
Proof.
  unfold do_build_ngram.
  destruct (build_ngram_args py_int (split arg)) as [e|[filepath n]];
    [discriminate|].
  destruct (match truthy_path filepath with Some _ => _ | None => _ end)
    as [msg|all_text].
  { intros H; inversion H; subst. repeat split; congruence. }
  destruct (match clean_text all_text with inl _ => _ | inr _ => _ end)
    as [e|m].
  { intros H; inversion H; subst. repeat split; congruence. }
  destruct (Z.eqb_spec n 2) as [->|Hn]; intros H; inversion H; subst;
    cbn [rating_manager conversation_history bigram_model trigram_model].
  - repeat split; [|congruence]. intros _. now exists filepath.
  - repeat split; [congruence|]. intros _. now exists filepath, n.
Qed.

(** X3.  [history]: a limit of 0 lists the whole history, a positive limit the
    last exchanges up to that number, a negative limit everything but the
    first exchanges up to that number. *)
Theorem history_limit (self : console) (arg : string) (k : Z) :
  arg <> EmptyString ->
  py_int arg = Some k ->
  let log := conversation_history _ _ self in
  history self arg = inr (slice_from log (- k)%Z) /\
  (k = 0%Z -> history self arg = inr log) /\
  ((0 < k)%Z ->
     history self arg = inr (skipn (List.length log - Z.to_nat k) log)) /\
  ((k < 0)%Z -> history self arg = inr (skipn (Z.to_nat (- k)) log)).
Proof.
  intros Harg Hk log. unfold do_history.
  destruct arg as [|a s]; [congruence|]. rewrite Hk. fold log.
  split; [reflexivity|].
  rewrite slice_from_skipn. repeat split.
  - intros ->. reflexivity.
  - intros Hpos. destruct (Z.ltb_spec (- k) 0) as [_|Hge]; [|lia].
    now rewrite Z.opp_involutive.
  - intros Hneg. destruct (Z.ltb_spec (- k) 0) as [Hlt|_]; [lia|]. reflexivity.
Qed.

(** X4.  [predict_next_word]: the last word is taken off the prefix, and
    selects the model, only when it is [bigram] or [trigram] and not the
    only word; otherwise the whole argument is the prefix, for the bigram
    model. *)
Theorem predict_next_word_prefix (self : console) (arg : string)
    (m : Model) (p : string) (n : Z) (T : float) :
  predict_next_word self arg = PredictNextWord m p n T ->
  (forall front w,
      split arg = front ++ [w] -> front <> [] ->
      str_in w ["bigram"; "trigram"] = true ->
      p = join " " front /\
      n = (if String.eqb w "bigram" then 2 else 3)%Z) /\
  (forall front w,
      split arg = front ++ [w] ->
      front = [] \/ str_in w ["bigram"; "trigram"] = false ->
      p = arg /\ n = 2%Z).
Proof.
  unfold do_predict_next_word. intros Hcall.
  destruct arg as [|a s]; [discriminate|].
  destruct (choose self _) as [msg|[m' k]] eqn:Hsel; [discriminate|].
  inversion Hcall; subst; clear Hcall.
  apply select_model_order in Hsel.
  assert (Hlast : forall front w,
             split (String a s) = front ++ [w] ->
             index (split (String a s)) (-1)%Z = Some w).
  { intros front w ->. rewrite (index_from_end _ 1), length_app, nth_error_app2;
      rewrite ?length_app; cbn [List.length]; try lia.
    now replace (List.length front + 1 - 1 - List.length front) with 0 by lia. }
  split; intros front w Hparts Hcase.
  - intros Hw.
    assert (Htyped : typed_prefix (split (String a s)) = true).
    { unfold typed_prefix. rewrite (Hlast front w Hparts), Hw, Hparts.
      apply andb_true_iff. split; [|reflexivity]. apply Nat.ltb_lt.
      rewrite length_app. destruct front; [congruence | simpl; lia]. }
    unfold prefix_of, model_type_of in *.
    rewrite Htyped in *. rewrite (Hlast front w Hparts) in Hsel.
    split; [|assumption]. f_equal. rewrite Hparts.
    apply (slice_to_drop front [w]). discriminate.
  - assert (Htyped : typed_prefix (split (String a s)) = false).
    { unfold typed_prefix. rewrite (Hlast front w Hparts), Hparts, length_app.
      destruct Hcase as [-> | ->]; [reflexivity | apply andb_false_r]. }
    unfold prefix_of, model_type_of in *. rewrite Htyped in *.
    split; [reflexivity | assumption].
Qed.

(** X5.  [generate_sequence] with at most two words reads no option: the whole
    argument is the seed, for the bigram model, with length 10 and
    temperature 0.8, even when the second word is a number or a model type. *)
Theorem generate_sequence_two_words (self : console) (arg : string) :
  arg <> EmptyString ->
  List.length (split arg) <= 2 ->
  generate_sequence self arg =
  match choose self "bigram" with
  | inl msg => Say msg
  | inr (m, n) => GenerateSequence m arg 10%Z n (Finite (8 # 10)%Q)
  end.
Proof.
  intros Harg Hlen. unfold do_generate_sequence.
  destruct arg as [|a s]; [congruence|].
  now rewrite parse_options_short, seed_of_short by assumption.
Qed.

(** X6.  A length word that [isdigit] accepts and [int] rejects (superscript
    digits) raises inside the [try] block before anything is assigned: the
    model type and the temperature given after it are dropped as well. *)
Theorem generate_sequence_options_reset (front : list string) (x y z : string) :
  isdigit x = true -> py_int x = None ->
  options (front ++ [x; y; z]) = default_options.
Proof.
  intros Hdigit Hint.
  now rewrite parse_options_last3, parse_options_three, Hdigit, Hint.
Qed.

(** X7.  [feedback] leaves the history and both models as they are, and with
    an empty argument the rating manager too. *)
Theorem feedback_leaves_models (self : console) (fb : string) :
  snd (feedback self fb) =
    set_rating_manager _ _ self (rating_manager _ _ (snd (feedback self fb))) /\
  conversation_history _ _ (snd (feedback self fb))
    = conversation_history _ _ self /\
  bigram_model _ _ (snd (feedback self fb)) = bigram_model _ _ self /\
  trigram_model _ _ (snd (feedback self fb)) = trigram_model _ _ self /\
  snd (feedback self EmptyString) = self.
Proof.
  destruct (do_feedback_state self fb) as (rm & ->).
  repeat split.
Qed.

End ConsoleFacts.

(** [generate_sequence tell me a story 25 trigram 0.5]: the seed keeps
    the first four words; the last three are the length 25, the trigram
    model and the temperature 0.5. *)
Lemma generate_sequence_seed_text_witness :
  let arg := "tell me a story 25 trigram 0.5" in
  let self := both_models_console in
  do_generate_sequence unit always_truthy RatingController decimal_int
    decimal_float self arg
    = GenerateSequence tt "tell me a story" 25%Z 3%Z (Finite (5 # 10)%Q) /\
  (List.length (split arg) <= 2 -> "tell me a story" = arg) /\
  (List.length (split arg) = 3 ->
     exists w x y, split arg = [w; x; y] /\ "tell me a story" = w) /\
  (3 < List.length (split arg) ->
     exists front x y z,
       split arg = front ++ [x; y; z] /\ front <> [] /\
       "tell me a story" = join " " front /\
       (isdigit x = false -> 25%Z = 10%Z) /\
       (forall k, isdigit x = true -> decimal_int x = Some k -> 25%Z = k) /\
       (isdigit x = true -> decimal_int x = None ->
          25%Z = 10%Z /\ 3%Z = 2%Z /\ bigram_model _ _ self = Some tt /\
          Finite (5 # 10)%Q = Finite (8 # 10)%Q) /\
       ((isdigit x = true -> decimal_int x <> None) ->
          let model_type :=
            if String.eqb y "trigram" then "trigram" else "bigram" in
          (y = "trigram" ->
             3%Z = 3%Z /\ trigram_model _ _ self = Some tt) /\
          (y <> "trigram" ->
             3%Z = 2%Z /\ bigram_model _ _ self = Some tt) /\
          (forall t, z <> model_type -> decimal_float z = Some t ->
                     Finite (5 # 10)%Q = t) /\
          (z = model_type \/ decimal_float z = None ->
           Finite (5 # 10)%Q = Finite (8 # 10)%Q))) /\
  ("tell me a story" = arg -> List.length (split arg) <= 2).
Proof.
  split; [reflexivity|].
  exact (generate_sequence_seed_text unit always_truthy RatingController
           decimal_int decimal_float both_models_console
           "tell me a story 25 trigram 0.5" tt "tell me a story" 25%Z 3%Z
           (Finite (5 # 10)%Q) eq_refl).
Defined.



(** C4 as stated fails on the console: with the rating manager's
    temperature at 0.5, [predict_next_word] and [generate_sequence] still
    call the predictor with 0.8. *)
Lemma prediction_temperature_is_not_the_rated_one :
  temperature (current_params (rating_manager _ _ sample_console)) = (1 # 2)%Q /\
  do_predict_next_word unit always_truthy RatingController sample_console
    "the" = PredictNextWord tt "the" 2%Z (Finite (8 # 10)%Q) /\
  do_generate_sequence unit always_truthy RatingController
    decimal_int decimal_float sample_console "the" =
  GenerateSequence tt "the" 10%Z 2%Z (Finite (8 # 10)%Q) /\
  ~ (8 # 10 == temperature (current_params (rating_manager _ _ sample_console)))%Q.
Proof. repeat split. discriminate. Qed.

(** [build_ngram a b c] is [build_ngram] with no argument. *)
Lemma build_ngram_ignores_long_arguments_witness :
  build_ngram_args decimal_int (split "corpus.txt 3 now") = inr (None, 2%Z) /\
  sample_build_ngram sample_console "corpus.txt 3 now" =
  sample_build_ngram sample_console EmptyString.
Proof.
  apply (build_ngram_ignores_long_arguments unit RatingController
           sample_path_exists sample_read_file sample_clean_text
           sample_build_ngram_model decimal_int sample_console
           "corpus.txt 3 now").
  simpl. lia.
Defined.

(** [build_ngram corpus.txt 5] puts its model in the trigram slot. *)
Lemma build_ngram_slot_witness :
  let after :=
    {| rating_manager := rating_manager _ _ sample_console;
       conversation_history := [];
       bigram_model := Some tt;
       trigram_model := Some tt |} in
  rating_manager _ _ after = rating_manager _ _ sample_console /\
  conversation_history _ _ after = conversation_history _ _ sample_console /\
  (bigram_model _ _ after <> bigram_model _ _ sample_console ->
     exists filepath,
       build_ngram_args decimal_int (split "corpus.txt 5")
         = inr (filepath, 2%Z) /\
       trigram_model _ _ after = trigram_model _ _ sample_console) /\
  (trigram_model _ _ after <> trigram_model _ _ sample_console ->
     exists filepath n,
       build_ngram_args decimal_int (split "corpus.txt 5")
         = inr (filepath, n) /\
       n <> 2%Z /\
       bigram_model _ _ after = bigram_model _ _ sample_console).
Proof.
  exact (build_ngram_slot unit RatingController sample_path_exists
           sample_read_file sample_clean_text sample_build_ngram_model
           decimal_int sample_console _ "corpus.txt 5"
           ["Trigram model built successfully from file: corpus.txt."]
           eq_refl).
Defined.

(** [history 0] lists both exchanges of a history of two. *)
Lemma history_limit_witness :
  do_history unit RatingController decimal_int talkative_console "0"
    = inr (slice_from sample_history (- 0)%Z) /\
  (0%Z = 0%Z ->
     do_history unit RatingController decimal_int talkative_console "0"
       = inr sample_history) /\
  ((0 < 0)%Z ->
     do_history unit RatingController decimal_int talkative_console "0"
       = inr (skipn (List.length sample_history - Z.to_nat 0) sample_history)) /\
  ((0 < 0)%Z ->
     do_history unit RatingController decimal_int talkative_console "0"
       = inr (skipn (Z.to_nat (- 0)) sample_history)).
Proof.
  apply (history_limit unit RatingController decimal_int talkative_console
           "0" 0%Z); [discriminate | reflexivity].
Defined.

(** [predict_next_word the cat trigram] asks the trigram model about
    [the cat]. *)
Lemma predict_next_word_prefix_witness :
  let self :=
    {| rating_manager := rating_manager _ _ sample_console;
       conversation_history := [];
       bigram_model := Some tt;
       trigram_model := Some tt |} in
  (forall front w,
      split "the cat trigram" = front ++ [w] -> front <> [] ->
      str_in w ["bigram"; "trigram"] = true ->
      "the cat" = join " " front /\
      3%Z = (if String.eqb w "bigram" then 2 else 3)%Z) /\
  (forall front w,
      split "the cat trigram" = front ++ [w] ->
      front = [] \/ str_in w ["bigram"; "trigram"] = false ->
      "the cat" = "the cat trigram" /\ 3%Z = 2%Z).
Proof.
  exact (predict_next_word_prefix unit always_truthy RatingController
           {| rating_manager := rating_manager _ _ sample_console;
              conversation_history := [];
              bigram_model := Some tt;
              trigram_model := Some tt |}
           "the cat trigram" tt "the cat" 3%Z (Finite (8 # 10)%Q) eq_refl).
Defined.

(** [generate_sequence hello trigram] still asks the bigram model, with
    [hello trigram] as the seed. *)
Lemma generate_sequence_two_words_witness :
  do_generate_sequence unit always_truthy RatingController decimal_int
    decimal_float sample_console "hello trigram" =
  GenerateSequence tt "hello trigram" 10%Z 2%Z (Finite (8 # 10)%Q).
Proof.
  apply (generate_sequence_two_words unit always_truthy RatingController
           decimal_int decimal_float sample_console "hello trigram");
    [discriminate | simpl; lia].
Defined.

(** The word made of the superscript two (code point 178) in the length
    position: [trigram] and [0.5] after it are not read. *)
Lemma generate_sequence_options_reset_witness :
  parse_options decimal_int decimal_float
    (["hello"] ++ [String (ascii_of_nat 178) EmptyString; "trigram"; "0.5"])
  = default_options.
Proof.
  apply (generate_sequence_options_reset decimal_int decimal_float ["hello"]
           (String (ascii_of_nat 178) EmptyString) "trigram" "0.5");
    reflexivity.
Defined.

(** * Properties of the model builder *)

Lemma context_eqb_eq (a b : Context) : context_eqb a b = true <-> a = b.
Proof.
  revert b. induction a as [|x a IH]; intros [|y b]; simpl;
    try (split; [discriminate | congruence]); [tauto|].
  rewrite andb_true_iff, String.eqb_eq, IH.
  split; [intros [-> ->]; reflexivity | intros H; inversion H; auto].
Qed.

Lemma context_eqb_refl (a : Context) : context_eqb a a = true.
Proof. now apply context_eqb_eq. Qed.

(** A window starts at every position that leaves room for [n] tokens. *)
Lemma windows_length (n : nat) (tokens : list Token) :
  1 <= n -> List.length (windows n tokens) = List.length tokens + 1 - n.
Proof.
  intros Hn. induction tokens as [|a rest IH]; [cbn [windows List.length]; lia|].
  cbn [windows].
  destruct (nth_error (a :: rest) (n - 1)) as [t|] eqn:Hnth.
  - assert (n - 1 < List.length (a :: rest))
      by (apply nth_error_Some; congruence).
    cbn [List.length] in *. rewrite IH. lia.
  - apply nth_error_None in Hnth. cbn [List.length] in *. lia.
Qed.

Lemma continuation_total_cons (u : Token) (c : nat) (cs : continuations) :
  continuation_total ((u, c) :: cs) = c + continuation_total cs.
Proof. reflexivity. Qed.

Lemma total_count_cons (k : Context) (cs : continuations) (tbl : table) :
  total_count ((k, cs) :: tbl) = continuation_total cs + total_count tbl.
Proof. reflexivity. Qed.

Lemma continuation_total_bump (t : Token) (cs : continuations) :
  continuation_total (bump t cs) = S (continuation_total cs).
Proof.
  induction cs as [|[u c] rest IH]; [reflexivity|].
  cbn [bump]. destruct (String.eqb t u);
    rewrite !continuation_total_cons; [|rewrite IH]; lia.
Qed.

(** Each observation raises the total by exactly one. *)
Lemma total_count_observe (ctx : Context) (t : Token) (tbl : table) :
  total_count (observe ctx t tbl) = S (total_count tbl).
Proof.
  induction tbl as [|[k cs] rest IH]; [reflexivity|].
  cbn [observe]. destruct (context_eqb ctx k); rewrite !total_count_cons.
  - rewrite continuation_total_bump. lia.
  - rewrite IH. lia.
Qed.

Lemma total_count_windows (ws : list (Context * Token)) :
  forall tbl,
    total_count (count_windows tbl ws) = total_count tbl + List.length ws.
Proof.
  unfold count_windows.
  induction ws as [|w ws IH]; intros tbl; cbn [fold_left List.length]; [lia|].
  rewrite IH, total_count_observe. lia.
Qed.

Lemma continuation_count_bump (t u : Token) (cs : continuations) :
  continuation_count (bump t cs) u =
  continuation_count cs u + (if String.eqb u t then 1 else 0).
Proof.
  induction cs as [|[v c] rest IH]; cbn [bump continuation_count].
  - destruct (String.eqb u t); reflexivity.
  - destruct (String.eqb t v) eqn:Htv; cbn [continuation_count].
    + apply String.eqb_eq in Htv; subst v.
      destruct (String.eqb u t); lia.
    + destruct (String.eqb u v) eqn:Huv; [|apply IH].
      apply String.eqb_eq in Huv; subst v.
      rewrite String.eqb_sym, Htv. lia.
Qed.

(** An observation raises the count of its own pair and of no other. *)
Lemma pair_count_observe (ctx k : Context) (t u : Token) (tbl : table) :
  pair_count (observe ctx t tbl) k u =
  pair_count tbl k u + (if context_eqb k ctx && String.eqb u t then 1 else 0).
Proof.
  unfold pair_count.
  induction tbl as [|[c cs] rest IH]; cbn [observe lookup].
  - destruct (context_eqb k ctx); cbn [andb continuation_count]; [|reflexivity].
    destruct (String.eqb u t); reflexivity.
  - destruct (context_eqb ctx c) eqn:Hc; cbn [lookup].
    + apply context_eqb_eq in Hc; subst c.
      destruct (context_eqb k ctx); cbn [andb]; [|lia].
      apply continuation_count_bump.
    + destruct (context_eqb k c) eqn:Hk; [|apply IH].
      apply context_eqb_eq in Hk; subst c.
      destruct (context_eqb k ctx) eqn:Hkc; cbn [andb]; [|lia].
      apply context_eqb_eq in Hkc; subst k.
      rewrite context_eqb_refl in Hc. discriminate.
Qed.

Lemma occurrences_cons (w : Context * Token) (ws : list (Context * Token))
    (k : Context) (u : Token) :
  occurrences (w :: ws) k u =
  (if context_eqb k (fst w) && String.eqb u (snd w) then 1 else 0)
  + occurrences ws k u.
Proof.
  destruct w as [c t]. unfold occurrences. cbn [filter fst snd].
  destruct (context_eqb k c && String.eqb u t); reflexivity.
Qed.

Lemma pair_count_windows (ws : list (Context * Token)) (k : Context) (u : Token) :
  forall tbl,
    pair_count (count_windows tbl ws) k u = pair_count tbl k u + occurrences ws k u.
Proof.
  induction ws as [|w ws IH]; intros tbl.
  - cbn. lia.
  - rewrite occurrences_cons. unfold count_windows in *. cbn [fold_left].
    rewrite IH, pair_count_observe. lia.
Qed.

(** C1.  For a token sequence at least as long as the order [n] (2 or 3),
    [build] returns a model of that order whose continuation counts, summed
    over all contexts and continuations, equal [len(tokens) - n + 1]; the
    count of each (context, continuation) pair is the number of width-[n]
    windows of the sequence that consist of that context followed by that
    continuation. *)
Theorem build_total_count (tokens : list Token) (n : ngram_order) :
  width n <= List.length tokens ->
  exists m,
    build tokens n = inr m /\
    order m = n /\
    total_count (counts m) = List.length tokens - width n + 1 /\
    forall ctx t,
      pair_count (counts m) ctx t = occurrences (windows (width n) tokens) ctx t.
Proof.
  intros Hlen. unfold build.
  destruct (Nat.ltb_spec (List.length tokens) (width n)) as [Hlt|_]; [lia|].
  eexists. split; [reflexivity|]. cbn [order counts].
  split; [reflexivity|]. split.
  - rewrite total_count_windows, windows_length by (destruct n; simpl; lia).
    change (total_count []) with 0. lia.
  - intros ctx t. rewrite pair_count_windows. reflexivity.
Qed.

(** The corpus [a b a b a b] of section 8, as a bigram model. *)
Lemma build_total_count_witness :
  exists m,
    build ["a"; "b"; "a"; "b"; "a"; "b"] Bigram = inr m /\
    order m = Bigram /\
    total_count (counts m) = 6 - 2 + 1 /\
    forall ctx t,
      pair_count (counts m) ctx t =
      occurrences (windows 2 ["a"; "b"; "a"; "b"; "a"; "b"]) ctx t.
Proof.
  apply (build_total_count ["a"; "b"; "a"; "b"; "a"; "b"] Bigram).
  simpl. lia.
Defined.

(** The same corpus gives [("a",) -> {"b": 3}] and [("b",) -> {"a": 2}]. *)
Example build_round_trip :
  build (split "a b a b a b") Bigram =
  inr {| order := Bigram;
         counts := [(["a"], [("b", 3)]); (["b"], [("a", 2)])] |}.
Proof. reflexivity. Qed.

(** * Properties of the predictor *)

Lemma count_as_Q_nonneg (c : nat) : (0 <= count_as_Q c)%Q.
Proof. unfold count_as_Q, Qle; simpl. lia. Qed.

Lemma count_as_Q_succ (c : nat) : (count_as_Q (S c) == count_as_Q c + 1)%Q.
Proof.
  unfold count_as_Q. rewrite Nat2Z.inj_succ, <- Z.add_1_r, inject_Z_plus.
  reflexivity.
Qed.

Lemma count_as_Q_plus (a b : nat) :
  (count_as_Q (a + b) == count_as_Q a + count_as_Q b)%Q.
Proof. unfold count_as_Q. now rewrite Nat2Z.inj_add, inject_Z_plus. Qed.

Lemma count_as_Q_le (a b : nat) : a <= b -> (count_as_Q a <= count_as_Q b)%Q.
Proof. intros H. unfold count_as_Q. rewrite <- Zle_Qle. lia. Qed.

Lemma count_as_Q_pos (a : nat) : 0 < a -> (0 < count_as_Q a)%Q.
Proof.
  intros H. unfold count_as_Q. change 0%Q with (inject_Z 0).
  rewrite <- Zlt_Qlt. lia.
Qed.

Lemma count_as_Q_positive (k : positive) :
  count_as_Q (Pos.to_nat k) = inject_Z (Z.pos k).
Proof. unfold count_as_Q. now rewrite positive_nat_Z. Qed.

Lemma mult_le_left (z x y : Q) : (0 <= z -> x <= y -> z * x <= z * y)%Q.
Proof.
  intros Hz Hxy. rewrite (Qmult_comm z x), (Qmult_comm z y).
  now apply Qmult_le_compat_r.
Qed.

Lemma cancel_factor (K x y : Q) : (0 < K -> x * K < K * y -> x < y)%Q.
Proof.
  intros HK H. apply (Qmult_lt_l x y K HK). now rewrite (Qmult_comm K x).
Qed.

(** ** Powers *)

Lemma power_nonneg (p : Q) (k : nat) : (0 <= p -> 0 <= power p k)%Q.
Proof.
  intros Hp. induction k as [|k IH]; cbn [power]; [lra|].
  now apply Qmult_le_0_compat.
Qed.

Lemma power_pos (p : Q) (k : nat) : (0 < p -> 0 < power p k)%Q.
Proof.
  intros Hp. induction k as [|k IH]; cbn [power]; [lra|].
  now apply Qmult_lt_0_compat.
Qed.

Lemma power_mono (p q : Q) (k : nat) :
  (0 <= p -> p <= q -> power p k <= power q k)%Q.
Proof.
  intros Hp Hpq. induction k as [|k IH]; cbn [power]; [lra|].
  pose proof (power_nonneg p k Hp) as HP.
  assert (0 <= q)%Q by lra.
  apply Qle_trans with (p * power q k)%Q.
  - now apply mult_le_left.
  - now apply Qmult_le_compat_r; [|apply power_nonneg].
Qed.

(** A base that lies [d] below another falls behind it, power by power,
    at least like [1/k]. *)
Lemma power_gap (p q d : Q) (k : nat) :
  (0 <= p -> 0 <= d -> p + d <= q ->
   power p k * count_as_Q k * d <= p * power q k)%Q.
Proof.
  intros Hp Hd Hq. induction k as [|k IH].
  - cbn [power]. change (count_as_Q 0) with 0%Q. lra.
  - cbn [power]. rewrite count_as_Q_succ.
    assert (H : (0 <= q)%Q) by lra.
    pose proof (power_nonneg p k Hp) as HP.
    pose proof (power_nonneg q k H) as HQ.
    pose proof (power_mono p q k Hp ltac:(lra)) as HPQ.
    pose proof (count_as_Q_nonneg k) as HK.
    set (P := power p k) in *. set (R := power q k) in *.
    set (K := count_as_Q k) in *.
    assert (H1 : (p * (P * K * d) <= p * (p * R))%Q)
      by now apply mult_le_left.
    assert (H2 : (p * (d * P) <= p * (d * R))%Q)
      by (apply mult_le_left; [assumption|now apply mult_le_left]).
    assert (H3 : (p * R * (p + d) <= p * R * q)%Q)
      by (apply mult_le_left; [now apply Qmult_le_0_compat|assumption]).
    apply Qle_trans with (p * (P * K * d) + p * (d * P))%Q;
      [ring_simplify; lra|].
    apply Qle_trans with (p * R * (p + d))%Q; [|lra].
    ring_simplify. ring_simplify in H1. ring_simplify in H2. lra.
Qed.

(** ** Sums of weights *)

Lemma weight_total_cons (e : Token * Q) (l : list (Token * Q)) :
  weight_total (e :: l) = (snd e + weight_total l)%Q.
Proof. reflexivity. Qed.

Lemma weight_total_app (l1 l2 : list (Token * Q)) :
  (weight_total (l1 ++ l2) == weight_total l1 + weight_total l2)%Q.
Proof.
  induction l1 as [|e l1 IH]; cbn [app].
  - change (weight_total []) with 0%Q. ring.
  - rewrite !weight_total_cons, IH. ring.
Qed.

Lemma weight_total_nonneg (l : list (Token * Q)) :
  Forall (fun e => (0 <= snd e)%Q) l -> (0 <= weight_total l)%Q.
Proof.
  induction 1 as [|e l He Hl IH]; [change (0 <= 0)%Q; lra|].
  rewrite weight_total_cons. lra.
Qed.

Lemma weight_total_map_nonneg (f : nat -> Q) (cs : continuations) :
  (forall a, (0 <= f a)%Q) ->
  (0 <= weight_total (map (fun e => (fst e, f (snd e))) cs))%Q.
Proof.
  intros Hf. apply weight_total_nonneg, Forall_forall.
  intros e He. apply in_map_iff in He as (e0 & <- & _). apply Hf.
Qed.

Lemma weight_total_map_div (f : nat -> Q) (W : Q) (cs : continuations) :
  (weight_total (map (fun e => (fst e, (f (snd e) / W)%Q)) cs)
   == weight_total (map (fun e => (fst e, f (snd e))) cs) / W)%Q.
Proof.
  induction cs as [|e cs IH]; cbn [map].
  - change (0 == 0 / W)%Q. unfold Qdiv. ring.
  - rewrite !weight_total_cons. cbn [snd]. rewrite IH. unfold Qdiv. ring.
Qed.

Lemma continuation_total_entry (e : Token * nat) (cs : continuations) :
  continuation_total (e :: cs) = snd e + continuation_total cs.
Proof. reflexivity. Qed.

Lemma continuation_total_app (l1 l2 : continuations) :
  continuation_total (l1 ++ l2)
  = continuation_total l1 + continuation_total l2.
Proof. unfold continuation_total. now rewrite map_app, list_sum_app. Qed.

Lemma weight_total_map_bound (f : nat -> Q) (K : Q) (c : nat)
    (cs : continuations) :
  (forall a, a < c -> (f a * K <= count_as_Q a)%Q) ->
  Forall (fun e => snd e < c) cs ->
  (weight_total (map (fun e => (fst e, f (snd e))) cs) * K
   <= count_as_Q (continuation_total cs))%Q.
Proof.
  intros Hf Hcs. induction Hcs as [|e cs He Hcs IH]; cbn [map].
  - change (0 * K <= 0)%Q. lra.
  - rewrite weight_total_cons, continuation_total_entry, count_as_Q_plus.
    cbn [snd]. specialize (Hf _ He). lra.
Qed.

(** ** The draw *)

Lemma draw_cons (t : Token) (p u : Q) (rest : list (Token * Q)) :
  rest <> [] ->
  draw ((t, p) :: rest) u =
  if Qlt_le_dec u p then Some t else draw rest (u - p)%Q.
Proof. destruct rest; [congruence | reflexivity]. Qed.

(** The token drawn is the one in whose stretch [u] falls: at or past the
    shares before it, and short of its own share added to them (the last
    token has no such upper end). *)
Lemma draw_lands (before after : list (Token * Q)) (t : Token) (p u : Q) :
  (weight_total before <= u)%Q ->
  (after = [] \/ u < weight_total before + p)%Q ->
  Forall (fun e => (0 <= snd e)%Q) before ->
  draw (before ++ (t, p) :: after) u = Some t.
Proof.
  revert u. induction before as [|[t0 p0] before IH]; intros u Hlow Hhigh Hpos.
  - cbn [app draw]. destruct after as [|e after]; [reflexivity|].
    destruct Hhigh as [Hnil|Hhigh]; [discriminate|].
    change (weight_total []) with 0%Q in Hhigh.
    destruct (Qlt_le_dec u p); [reflexivity|lra].
  - cbn [app]. rewrite draw_cons by (destruct before; discriminate).
    rewrite weight_total_cons in Hlow, Hhigh. cbn [snd] in Hlow, Hhigh.
    inversion Hpos as [|e l Hp0 Hpos']; subst. cbn [snd] in Hp0.
    pose proof (weight_total_nonneg before Hpos') as Hb.
    destruct (Qlt_le_dec u p0); [lra|].
    apply IH; [lra| |assumption].
    destruct Hhigh as [Hnil|Hhigh]; [now left|right; lra].
Qed.

(** The renormalised weights, continuation by continuation. *)
Lemma renormalize_tempered (k : positive) (cs : continuations) :
  let f := fun a =>
    power (count_as_Q a / count_as_Q (continuation_total cs))%Q
      (Pos.to_nat k) in
  let W := weight_total (map (fun e => (fst e, f (snd e))) cs) in
  renormalize (tempered k (base_probabilities cs)) =
  map (fun e => (fst e, (f (snd e) / W)%Q)) cs.
Proof.
  cbv zeta. unfold renormalize, tempered, base_probabilities.
  rewrite !map_map. cbn [fst snd]. reflexivity.
Qed.

(** With a gap of at least one count between a continuation and the
    mode, the share of the continuation shrinks like [1/k]. *)
Lemma share_bound (a c S K : nat) (W : Q) :
  a < c -> 0 < S ->
  (power (count_as_Q c / count_as_Q S) K <= W)%Q -> (0 < W)%Q ->
  (power (count_as_Q a / count_as_Q S) K / W * count_as_Q K
   <= count_as_Q a)%Q.
Proof.
  intros Hac HS HcW HW.
  pose proof (count_as_Q_pos S HS) as HSq.
  pose proof (count_as_Q_nonneg a) as Ha.
  assert (Hp : (0 <= count_as_Q a / count_as_Q S)%Q).
  { apply Qle_shift_div_l; [assumption|lra]. }
  assert (Hd : (0 <= 1 / count_as_Q S)%Q).
  { apply Qle_shift_div_l; [assumption|lra]. }
  assert (Hq : (count_as_Q a / count_as_Q S + 1 / count_as_Q S
                <= count_as_Q c / count_as_Q S)%Q).
  { assert (Hle : (count_as_Q a + 1 <= count_as_Q c)%Q).
    { rewrite <- count_as_Q_succ. apply count_as_Q_le. lia. }
    unfold Qdiv. rewrite <- Qmult_plus_distr_l.
    apply Qmult_le_compat_r; [assumption|].
    apply Qinv_le_0_compat. lra. }
  pose proof (power_gap _ _ _ K Hp Hd Hq) as Hgap.
  pose proof (power_nonneg _ K Hp) as HP.
  set (P := power (count_as_Q a / count_as_Q S) K) in *.
  set (R := power (count_as_Q c / count_as_Q S) K) in *.
  set (Kq := count_as_Q K) in *.
  set (A := count_as_Q a) in *. set (Sq := count_as_Q S) in *.
  assert (H1 : (P * Kq <= A * R)%Q).
  { assert (Hs : (P * Kq * (1 / Sq) * Sq <= A / Sq * R * Sq)%Q)
      by (apply Qmult_le_compat_r; [assumption|lra]).
    assert (E1 : (P * Kq * (1 / Sq) * Sq == P * Kq)%Q) by (field; lra).
    assert (E2 : (A / Sq * R * Sq == A * R)%Q) by (field; lra).
    rewrite E1, E2 in Hs. assumption. }
  assert (H2 : (A * R <= A * W)%Q) by now apply mult_le_left.
  assert (E : (P / W * Kq == P * Kq / W)%Q) by (field; lra).
  rewrite E. apply Qle_shift_div_r; [assumption|lra].
Qed.

(** Once [k] times [1 - u] exceeds the total count of the context, and
    [k] times [u] too unless nothing was observed before the mode, the
    draw [u] lands on the mode. *)
Lemma draw_mode_when_sharp (before after : continuations) (mode : Token)
    (c : nat) (k : positive) (u : Q) :
  let cs := before ++ (mode, c) :: after in
  Forall (fun e => snd e < c) (before ++ after) ->
  ((before = [] /\ 0 <= u) \/
   count_as_Q (continuation_total cs) < inject_Z (Z.pos k) * u)%Q ->
  (count_as_Q (continuation_total cs) < inject_Z (Z.pos k) * (1 - u))%Q ->
  draw (renormalize (tempered k (base_probabilities cs))) u = Some mode.
Proof.
  intros cs Hsmall Hu Hv.
  assert (Hcs : cs = before ++ (mode, c) :: after) by reflexivity.
  clearbody cs.
  rewrite renormalize_tempered. cbv zeta.
  set (S := continuation_total cs) in *.
  set (K := Pos.to_nat k).
  pose (f := fun a => power (count_as_Q a / count_as_Q S)%Q K).
  pose (W := weight_total (map (fun e => (fst e, f (snd e))) cs)).
  pose (g := fun e : Token * nat => (fst e, (f (snd e) / W)%Q)).
  change (draw (map g cs) u = Some mode).
  assert (Hcases : (before = [] /\ after = []) \/ 0 < c).
  { destruct before as [|e l].
    - destruct after as [|e l]; [now left|].
      right. inversion Hsmall; subst. lia.
    - right. inversion Hsmall; subst. lia. }
  destruct Hcases as [[-> ->]|Hc].
  { subst cs. reflexivity. }
  assert (HS : S = continuation_total before + c + continuation_total after).
  { unfold S. rewrite Hcs, continuation_total_app, continuation_total_entry.
    cbn [snd]. lia. }
  assert (HSpos : 0 < S) by lia.
  assert (Hf : forall a, (0 <= f a)%Q).
  { intros a. apply power_nonneg. apply Qle_shift_div_l;
      [now apply count_as_Q_pos | pose proof (count_as_Q_nonneg a); lra]. }
  assert (Hfc : (0 < f c)%Q).
  { apply power_pos. apply Qlt_shift_div_l;
      [now apply count_as_Q_pos | pose proof (count_as_Q_pos c Hc); lra]. }
  assert (HWsplit :
    (W == weight_total (map (fun e => (fst e, f (snd e))) before) + f c
          + weight_total (map (fun e => (fst e, f (snd e))) after))%Q).
  { unfold W. rewrite Hcs, map_app, weight_total_app. cbn [map].
    rewrite weight_total_cons. cbn [snd]. ring. }
  clearbody W. clearbody S.
  pose proof (weight_total_map_nonneg f before Hf) as HB.
  pose proof (weight_total_map_nonneg f after Hf) as HA.
  assert (HfcW : (f c <= W)%Q) by lra.
  assert (HW : (0 < W)%Q) by lra.
  assert (Hshare : forall a, a < c ->
             (f a / W * count_as_Q K <= count_as_Q a)%Q).
  { intros a Hac. now apply share_bound with (c := c). }
  apply Forall_app in Hsmall as [Hbefore Hafter].
  assert (HboundB : (weight_total (map g before) * count_as_Q K
                     <= count_as_Q (continuation_total before))%Q)
    by exact (weight_total_map_bound (fun a => (f a / W)%Q) (count_as_Q K) c
                before Hshare Hbefore).
  assert (HboundA : (weight_total (map g after) * count_as_Q K
                     <= count_as_Q (continuation_total after))%Q)
    by exact (weight_total_map_bound (fun a => (f a / W)%Q) (count_as_Q K) c
                after Hshare Hafter).
  assert (Hone :
    (weight_total (map g before) + f c / W + weight_total (map g after) == 1)%Q).
  { unfold g. rewrite !weight_total_map_div.
    assert (E : (weight_total (map (fun e => (fst e, f (snd e))) before) / W
                 + f c / W
                 + weight_total (map (fun e => (fst e, f (snd e))) after) / W
                 == (weight_total (map (fun e => (fst e, f (snd e))) before)
                     + f c
                     + weight_total (map (fun e => (fst e, f (snd e))) after))
                    / W)%Q) by (field; lra).
    rewrite E, <- HWsplit. field. lra. }
  assert (HKq : count_as_Q K = inject_Z (Z.pos k)) by apply count_as_Q_positive.
  rewrite HKq in HboundB, HboundA.
  assert (HKpos : (0 < inject_Z (Z.pos k))%Q).
  { change 0%Q with (inject_Z 0). rewrite <- Zlt_Qlt. lia. }
  assert (HSB : (count_as_Q (continuation_total before) <= count_as_Q S)%Q)
    by (apply count_as_Q_le; lia).
  assert (HSA : (count_as_Q (continuation_total after) <= count_as_Q S)%Q)
    by (apply count_as_Q_le; lia).
  assert (HlowB : (weight_total (map g before) <= u)%Q).
  { destruct Hu as [[-> Hu0]|Hu].
    - change (0 <= u)%Q. assumption.
    - apply Qlt_le_weak.
      apply (cancel_factor (inject_Z (Z.pos k))); [assumption|]. lra. }
  assert (HlowA : (weight_total (map g after) < 1 - u)%Q).
  { apply (cancel_factor (inject_Z (Z.pos k))); [assumption|]. lra. }
  rewrite Hcs, map_app. cbn [map].
  change (g (mode, c)) with (mode, (f c / W)%Q).
  apply draw_lands.
  - assumption.
  - right. lra.
  - apply Forall_forall. intros e He. apply in_map_iff in He as (e0 & <- & _).
    cbn [g snd]. apply Qle_shift_div_l; [assumption|].
    specialize (Hf (snd e0)). lra.
Qed.

(** At every temperature [1/k] each observed continuation is what some
    draw returns: its share of the renormalised weights is positive. *)
Lemma every_continuation_is_drawn (cs : continuations) (t : Token) (a : nat)
    (k : positive) :
  In (t, a) cs -> 0 < a ->
  exists u, (0 <= u)%Q /\ (u < 1)%Q /\
            draw (renormalize (tempered k (base_probabilities cs))) u = Some t.
Proof.
  intros Hin Ha.
  apply in_split in Hin as (before & after & Hcs).
  rewrite renormalize_tempered. cbv zeta.
  set (S := continuation_total cs) in *.
  set (K := Pos.to_nat k).
  pose (f := fun a => power (count_as_Q a / count_as_Q S)%Q K).
  pose (W := weight_total (map (fun e => (fst e, f (snd e))) cs)).
  pose (g := fun e : Token * nat => (fst e, (f (snd e) / W)%Q)).
  change (exists u, (0 <= u)%Q /\ (u < 1)%Q /\ draw (map g cs) u = Some t).
  assert (HS : S = continuation_total before + a + continuation_total after).
  { unfold S. rewrite Hcs, continuation_total_app, continuation_total_entry.
    cbn [snd]. lia. }
  assert (HSpos : 0 < S) by lia.
  assert (Hf : forall b, (0 <= f b)%Q).
  { intros b. apply power_nonneg. apply Qle_shift_div_l;
      [now apply count_as_Q_pos | pose proof (count_as_Q_nonneg b); lra]. }
  assert (Hfa : (0 < f a)%Q).
  { apply power_pos. apply Qlt_shift_div_l;
      [now apply count_as_Q_pos | pose proof (count_as_Q_pos a Ha); lra]. }
  assert (HWsplit :
    (W == weight_total (map (fun e => (fst e, f (snd e))) before) + f a
          + weight_total (map (fun e => (fst e, f (snd e))) after))%Q).
  { unfold W. rewrite Hcs, map_app, weight_total_app. cbn [map].
    rewrite weight_total_cons. cbn [snd]. ring. }
  clearbody W. clearbody S.
  pose proof (weight_total_map_nonneg f before Hf) as HB.
  pose proof (weight_total_map_nonneg f after Hf) as HA.
  assert (HW : (0 < W)%Q) by lra.
  assert (Hg : forall b, (0 <= f b / W)%Q).
  { intros b. apply Qle_shift_div_l; [assumption|]. specialize (Hf b). lra. }
  assert (HgB : (0 <= weight_total (map g before))%Q)
    by exact (weight_total_map_nonneg (fun b => (f b / W)%Q) before Hg).
  assert (HgA : (0 <= weight_total (map g after))%Q)
    by exact (weight_total_map_nonneg (fun b => (f b / W)%Q) after Hg).
  assert (Hshare : (0 < f a / W)%Q).
  { apply Qlt_shift_div_l; [assumption|]. lra. }
  assert (Hone :
    (weight_total (map g before) + f a / W + weight_total (map g after) == 1)%Q).
  { unfold g. rewrite !weight_total_map_div.
    assert (E : (weight_total (map (fun e => (fst e, f (snd e))) before) / W
                 + f a / W
                 + weight_total (map (fun e => (fst e, f (snd e))) after) / W
                 == (weight_total (map (fun e => (fst e, f (snd e))) before)
                     + f a
                     + weight_total (map (fun e => (fst e, f (snd e))) after))
                    / W)%Q) by (field; lra).
    rewrite E, <- HWsplit. field. lra. }
  exists (weight_total (map g before)).
  split; [assumption|]. split; [lra|].
  rewrite Hcs, map_app. cbn [map].
  change (g (t, a)) with (t, (f a / W)%Q).
  apply draw_lands.
  - lra.
  - right. lra.
  - apply Forall_forall. intros e He. apply in_map_iff in He as (e0 & <- & _).
    cbn [g snd]. apply Hg.
Qed.

(** ** Temperatures *)

(** [whole_reciprocal] answers [k] exactly for the temperatures equal to
    [1/k]. *)
Lemma whole_reciprocal_unit (k : positive) : whole_reciprocal (1 # k) = Some k.
Proof.
  unfold whole_reciprocal. cbn [Qnum Qden].
  rewrite Z.mod_1_r, Z.div_1_r. reflexivity.
Qed.

Lemma whole_reciprocal_value (temperature : Q) (k : positive) :
  whole_reciprocal temperature = Some k -> (temperature == 1 # k)%Q.
Proof.
  destruct temperature as [n d]. unfold whole_reciprocal. cbn [Qnum Qden].
  destruct n as [|a|a]; try discriminate.
  destruct (Z.eqb_spec (Z.pos d mod Z.pos a) 0) as [Hmod|]; [|discriminate].
  intros Hk. inversion Hk as [Hk']. clear Hk.
  apply Z.div_exact in Hmod; [|lia].
  assert (Hq : (0 < Z.pos d / Z.pos a)%Z).
  { destruct (Z.pos d / Z.pos a)%Z; lia. }
  unfold Qeq. cbn [Qnum Qden]. rewrite Z2Pos.id by assumption. lia.
Qed.

(** [predict] at a temperature whose reciprocal is the whole number [k],
    for a prefix whose context is in the model. *)
Lemma predict_at_reciprocal (model : NGramModel) (prefix : list Token)
    (cs : continuations) (temperature : Q) (k : positive) (u : Q) :
  prefix <> [] ->
  lookup (counts model) (lookup_context model prefix) = Some cs ->
  whole_reciprocal temperature = Some k ->
  predict model prefix temperature u =
  match draw (renormalize (tempered k (base_probabilities cs))) u with
  | Some t => Predicted t
  | None => Fails UnknownContextError
  end.
Proof.
  intros Hprefix Hcs Hk. unfold predict.
  destruct (Qlt_le_dec 0 temperature) as [_|Hle].
  - destruct prefix as [|t prefix]; [congruence|].
    now rewrite Hcs, Hk.
  - exfalso. apply whole_reciprocal_value in Hk. rewrite Hk in Hle.
    revert Hle. unfold Qle. cbn. lia.
Qed.

(** Whole numbers outgrow any count: past some [k0], [k * e] exceeds it. *)
Lemma enough_sharpness (S : nat) (e : Q) :
  (0 < e)%Q ->
  exists k0 : positive,
    forall k, (k0 <= k)%positive ->
              (count_as_Q S < inject_Z (Z.pos k) * e)%Q.
Proof.
  destruct e as [n d]. unfold Qlt. cbn [Qnum Qden]. intros Hn.
  exists (Pos.of_succ_nat (S * Pos.to_nat d)). intros k Hk.
  unfold count_as_Q, inject_Z, Qmult. cbn [Qnum Qden].
  assert (Hk' : (Z.of_nat (S * Pos.to_nat d) + 1 <= Z.pos k)%Z).
  { apply Pos2Z.pos_le_pos in Hk.
    rewrite Zpos_P_of_succ_nat in Hk. lia. }
  rewrite Nat2Z.inj_mul, positive_nat_Z in Hk'.
  rewrite Pos.mul_1_l. nia.
Qed.


(** At every temperature [1/k] the prediction depends on the random
    source as soon as the context has two different continuations: each
    of them is predicted for some [u]. *)
Lemma prediction_depends_on_the_draw (model : NGramModel)
    (prefix : list Token) (cs : continuations) (t : Token) (a : nat)
    (temperature : Q) (k : positive) :
  prefix <> [] ->
  lookup (counts model) (lookup_context model prefix) = Some cs ->
  whole_reciprocal temperature = Some k ->
  In (t, a) cs -> 0 < a ->
  exists u, (0 <= u)%Q /\ (u < 1)%Q /\
            predict model prefix temperature u = Predicted t.
Proof.
  intros Hprefix Hcs Hk Hin Ha.
  destruct (every_continuation_is_drawn cs t a k Hin Ha) as (u & H0 & H1 & Hd).
  exists u. split; [assumption|]. split; [assumption|].
  now rewrite (predict_at_reciprocal model prefix cs temperature k u
                 Hprefix Hcs Hk), Hd.
Qed.

(** The corpus of the sample model. *)
Example close_counts_built : build close_corpus Bigram = inr close_counts.
Proof. reflexivity. Qed.

(** The round trip of the spec's section 8: after [a b a b a b], the
    prediction from [a] at temperature 0.01 is [b], whatever is drawn. *)
Example round_trip_prediction (u : Q) :
  predict {| order := Bigram;
             counts := [(["a"], [("b", 3)]); (["b"], [("a", 2)])] |}
    ["a"] (1 # 100)%Q u = Predicted "b".
Proof. reflexivity. Qed.



(** * Properties of the rating controller *)

Section RatingFacts.

Variables T_min T_max step scale : Q.

Hypothesis interval : (T_min <= T_max)%Q.
Hypothesis step_nonneg : (0 <= step)%Q.

Local Abbreviation feed := (apply_feedback T_min T_max step scale).
Local Abbreviation iterate := (repeat_feedback T_min T_max step scale).
Local Abbreviation bounded := (in_bounds T_min T_max).
Local Abbreviation clamped := (clamp T_min T_max).

Lemma clamp_in_interval (t : Q) : (T_min <= clamped t /\ clamped t <= T_max)%Q.
Proof.
  unfold clamp.
  destruct (Qlt_le_dec t T_min); [split; lra|].
  destruct (Qlt_le_dec T_max t); split; lra.
Qed.

(** Clamping a lowered value never lands above a start that was in range,
    and clamping a raised value never lands below it. *)
Lemma clamp_lowered (t0 t : Q) : (T_min <= t0 -> t <= t0 -> clamped t <= t0)%Q.
Proof.
  intros H0 Ht. unfold clamp.
  destruct (Qlt_le_dec t T_min); [assumption|].
  destruct (Qlt_le_dec T_max t); lra.
Qed.

Lemma clamp_raised (t0 t : Q) : (t0 <= T_max -> t0 <= t -> t0 <= clamped t)%Q.
Proof.
  intros H0 Ht. unfold clamp.
  destruct (Qlt_le_dec t T_min); [lra|].
  destruct (Qlt_le_dec T_max t); lra.
Qed.

Lemma temperature_after (ev : FeedbackEvent) (rc : RatingController) :
  valid_event ev = true ->
  temperature_of (snd (feed ev rc)) =
  clamped (temperature_of rc + requested step scale ev)%Q.
Proof. intros Hev. unfold apply_feedback. rewrite Hev. reflexivity. Qed.

(** Every adjustment leaves the temperature inside the interval, whatever
    the state before it. *)
Lemma apply_feedback_bounded (ev : FeedbackEvent) (rc : RatingController) :
  valid_event ev = true -> bounded (snd (feed ev rc)).
Proof.
  intros Hev. unfold in_bounds. fold (temperature_of (snd (feed ev rc))).
  rewrite temperature_after by assumption. apply clamp_in_interval.
Qed.

(** Repeating a feedback keeps the temperature on the side of a bound it
    started on. *)
Lemma iterate_lower (ev : FeedbackEvent) (N : nat) (rc : RatingController) :
  valid_event ev = true ->
  (T_min <= temperature_of rc)%Q ->
  (T_min <= temperature_of (iterate ev N rc))%Q.
Proof.
  intros Hev Hrc. destruct N as [|k]; [assumption|].
  cbn [repeat_feedback].
  apply (apply_feedback_bounded ev (iterate ev k rc) Hev).
Qed.

Lemma iterate_upper (ev : FeedbackEvent) (N : nat) (rc : RatingController) :
  valid_event ev = true ->
  (temperature_of rc <= T_max)%Q ->
  (temperature_of (iterate ev N rc) <= T_max)%Q.
Proof.
  intros Hev Hrc. destruct N as [|k]; [assumption|].
  cbn [repeat_feedback].
  apply (apply_feedback_bounded ev (iterate ev k rc) Hev).
Qed.

(** Below the interval a [good] raises the temperature, and above it a
    [bad] lowers it: the clamp brings the temperature back to the nearer
    bound. *)
Lemma good_raises_below_interval (rc : RatingController) :
  (temperature_of rc < T_min)%Q ->
  (temperature_of rc < temperature_of (snd (feed Good rc)))%Q.
Proof.
  intros Hlow.
  destruct (apply_feedback_bounded Good rc eq_refl) as [Hlo _].
  fold (temperature_of (snd (feed Good rc))) in Hlo. lra.
Qed.

Lemma bad_lowers_above_interval (rc : RatingController) :
  (T_max < temperature_of rc)%Q ->
  (temperature_of (snd (feed Bad rc)) < temperature_of rc)%Q.
Proof.
  intros Hhigh.
  destruct (apply_feedback_bounded Bad rc eq_refl) as [_ Hhi].
  fold (temperature_of (snd (feed Bad rc))) in Hhi. lra.
Qed.


End RatingFacts.



(** * Splitting what was joined *)

(** A word without whitespace. *)
Definition no_space (w : string) : bool :=
  all_chars (fun c => negb (isspace c)) w.

Lemma append_empty_r (s : string) : (s ++ EmptyString)%string = s.
Proof. induction s as [|c s IH]; simpl; [reflexivity | now rewrite IH]. Qed.

Lemma append_assoc (a b c : string) :
  ((a ++ b) ++ c)%string = (a ++ b ++ c)%string.
Proof. induction a as [|x a IH]; simpl; [reflexivity | now rewrite IH]. Qed.

Lemma no_space_snoc (w : string) (c : ascii) :
  no_space w = true -> isspace c = false ->
  no_space (w ++ String c EmptyString) = true.
Proof.
  unfold no_space. intros Hw Hc.
  induction w as [|a w IH]; simpl in *.
  - now rewrite Hc.
  - apply andb_true_iff in Hw as [Ha Hw]. rewrite Ha. now apply IH.
Qed.

(** A whitespace character ends the word being read: what follows it is
    split on its own. *)
Lemma split_from_separator (a : string) (sp : ascii) (b : string) :
  isspace sp = true ->
  forall word,
    split_from word (a ++ String sp b) = split_from word a ++ split b.
Proof.
  intros Hsp. induction a as [|c a IH]; intros word.
  - cbn [append split_from]. rewrite Hsp. now destruct word.
  - cbn [append split_from]. destruct (isspace c).
    + destruct word; rewrite IH; reflexivity.
    + apply IH.
Qed.

Lemma split_blank (a b : string) :
  split (a ++ " " ++ b) = split a ++ split b.
Proof. apply (split_from_separator a " "%char b). reflexivity. Qed.

(** Joining with single blanks neither glues two words together nor
    loses one. *)
Lemma split_join (words : list string) :
  split (join " " words) = flat_map split words.
Proof.
  induction words as [|w rest IH]; [reflexivity|].
  destruct rest as [|w' rest'].
  - cbn [join flat_map]. now rewrite app_nil_r.
  - change (join " " (w :: w' :: rest'))
      with (w ++ " " ++ join " " (w' :: rest'))%string.
    rewrite split_blank, IH. reflexivity.
Qed.

Lemma split_from_no_space (s : string) :
  forall word,
    no_space word = true ->
    Forall (fun w => no_space w = true) (split_from word s).
Proof.
  induction s as [|c rest IH]; intros word Hword; cbn [split_from].
  - destruct word; constructor; [assumption | constructor].
  - destruct (isspace c) eqn:Hc.
    + destruct word; [now apply IH | constructor; [assumption | now apply IH]].
    + apply IH. now apply no_space_snoc.
Qed.

(** A word without whitespace is read back as itself, after whatever
    was already read of it. *)
Lemma split_from_word (w : string) :
  forall word,
    no_space w = true -> (word ++ w)%string <> EmptyString ->
    split_from word w = [(word ++ w)%string].
Proof.
  unfold no_space.
  induction w as [|c w IH]; intros word Hw Hne; cbn [split_from].
  - rewrite append_empty_r in *. destruct word; [congruence | reflexivity].
  - cbn [all_chars] in Hw. apply andb_true_iff in Hw as [Hc Hw].
    apply negb_true_iff in Hc. rewrite Hc.
    rewrite IH; rewrite ?append_assoc; cbn [append];
      [reflexivity | assumption | assumption].
Qed.

Lemma split_word (s w : string) : In w (split s) -> split w = [w].
Proof.
  intros Hin.
  pose proof (split_from_no_space s EmptyString eq_refl) as Hclean.
  pose proof (split_nonempty s) as Hne.
  rewrite Forall_forall in Hclean, Hne.
  apply (split_from_word w EmptyString); [now apply Hclean | now apply Hne].
Qed.

Lemma flat_map_split_words (words : list string) :
  (forall w, In w words -> split w = [w]) -> flat_map split words = words.
Proof.
  induction words as [|w rest IH]; intros Hall; [reflexivity|].
  cbn [flat_map]. rewrite (Hall w (or_introl eq_refl)), IH; [reflexivity|].
  intros v Hv. apply Hall. now right.
Qed.

Lemma in_firstn {A : Type} (x : A) (k : nat) (l : list A) :
  In x (firstn k l) -> In x l.
Proof.
  intros Hx. rewrite <- (firstn_skipn k l). apply in_or_app. now left.
Qed.

(** Any run of leading words of a text, joined with blanks, splits back
    into those words. *)
Lemma split_join_firstn (s : string) (k : nat) :
  split (join " " (firstn k (split s))) = firstn k (split s).
Proof.
  rewrite split_join. apply flat_map_split_words.
  intros w Hw. apply (split_word s). now apply in_firstn in Hw.
Qed.

Lemma slice_to_firstn {A : Type} (l : list A) (stop : Z) :
  slice_to l stop =
  firstn (if (stop <? 0)%Z then List.length l - Z.to_nat (- stop)
          else Z.to_nat stop) l.
Proof.
  unfold slice_to. destruct (Z.ltb_spec stop 0) as [Hneg|Hpos].
  - f_equal. lia.
  - destruct (Z.min_spec stop (Z.of_nat (List.length l))) as [[_ ->]|[Hle ->]];
      [reflexivity|].
    rewrite Nat2Z.id, !firstn_all2; [reflexivity | lia | lia].
Qed.

(** * Properties of the commands, one command at a time *)

Section CommandFacts.

Variable Model : Type.
Variable model_truthy : Model -> bool.
Variable RatingManager : Type.
Variable path_exists : string -> bool.
Variable read_file : string -> string + string.
Variable clean_text : string -> string + string.
Variable build_ngram_model : list string -> Z -> string + Model.
Variable generate_response : string -> string + string.
Variable save_conversation_history : list exchange -> option string.
Variable py_int : string -> option Z.
Variable py_float : string -> option float.

Local Abbreviation console := (SBTConsole Model RatingManager).
Local Abbreviation log := (conversation_history Model RatingManager).

(** X8.  The text handed to the predictor holds exactly the leading words
    of the argument that the command kept: split again at whitespace, the
    seed of [generate_sequence] is the argument's words without the last
    three (without the last two when there are three, all of them when
    there are fewer), and the prefix of [predict_next_word] is the
    argument's words, without the last one when it names the model. *)
Theorem prediction_text_words (self : console) (arg : string) :
  (forall m seed len n T,
      do_generate_sequence Model model_truthy RatingManager py_int py_float
        self arg = GenerateSequence m seed len n T ->
      let parts := split arg in
      split seed =
      firstn (if 3 <? List.length parts then List.length parts - 3
              else if 2 <? List.length parts then List.length parts - 2
              else List.length parts)%nat parts) /\
  (forall m p n T,
      do_predict_next_word Model model_truthy RatingManager self arg
        = PredictNextWord m p n T ->
      let parts := split arg in
      split p =
      firstn (if typed_prefix parts then List.length parts - 1
              else List.length parts) parts).
Proof.
  split.
  - intros m seed len n T Hcall parts.
    apply generate_sequence_call in Hcall as (_ & -> & _).
    fold parts. unfold seed_of.
    destruct (3 <? List.length parts)%nat;
      [|destruct (2 <? List.length parts)%nat].
    + rewrite slice_to_firstn. apply split_join_firstn.
    + rewrite slice_to_firstn. apply split_join_firstn.
    + now rewrite firstn_all.
  - intros m p n T Hcall parts.
    unfold do_predict_next_word in Hcall.
    destruct arg as [|a s]; [discriminate|].
    destruct (select_model _ _ _ self _) as [msg|[m' k]]; [discriminate|].
    inversion Hcall; subst; clear Hcall.
    fold parts. unfold prefix_of. destruct (typed_prefix parts).
    + rewrite slice_to_firstn. apply split_join_firstn.
    + now rewrite firstn_all.
Qed.

(** X9.  Whatever its argument, what [history] lists is a suffix of the
    conversation history, in the order of the history; with no argument
    it is the whole history. *)
Theorem history_lists_suffix (self : console) (arg : string) :
  do_history Model RatingManager py_int self EmptyString = inr (log self) /\
  (forall shown,
      do_history Model RatingManager py_int self arg = inr shown ->
      exists dropped, log self = dropped ++ shown).
Proof.
  split.
  - unfold do_history. rewrite slice_from_skipn. f_equal.
    destruct (Z.ltb_spec (- Z.of_nat (List.length (log self))) 0) as [_|Hge].
    + now rewrite Z.opp_involutive, Nat2Z.id, Nat.sub_diag.
    + now replace (Z.to_nat (- Z.of_nat (List.length (log self)))) with 0 by lia.
  - intros shown Hshown. unfold do_history in Hshown.
    destruct (match arg with EmptyString => _ | String _ _ => _ end) as [k|];
      [|discriminate].
    inversion Hshown; subst; clear Hshown.
    rewrite slice_from_skipn. eexists. symmetry. apply firstn_skipn.
Qed.

(** X10.  The training text that [build_ngram] makes of the history has
    exactly the words of the inputs and responses, exchange by exchange:
    no word is lost and no two are glued together at a boundary. *)
Theorem history_text_words (self : console) :
  split (history_text Model RatingManager self) =
  flat_map (fun ex => split (input ex) ++ split (response ex)) (log self).
Proof.
  unfold history_text. rewrite split_join, flat_map_concat_map, map_map.
  rewrite flat_map_concat_map. f_equal. apply map_ext.
  intros ex. apply split_blank.
Qed.

Local Abbreviation generate :=
  (do_generate Model RatingManager clean_text generate_response
     save_conversation_history).
Local Abbreviation build_ngram :=
  (do_build_ngram Model RatingManager path_exists read_file clean_text
     build_ngram_model py_int).
Local Abbreviation console_after :=
  (fun e => snd (after_ending Model RatingManager e)).

(** X11.  [generate] touches nothing but the history, and the history
    only at its end: once the preprocessor and the generator have
    answered, exactly one exchange is appended, whose input is the
    argument as typed (not the cleaned text); it stays appended when
    saving then fails, and the command returns normally only if the save
    succeeded.  With an empty argument, or when the preprocessor or the
    generator raises, the console is unchanged. *)
Theorem generate_appends_one_exchange (self : console) (arg : string) :
  let after := console_after (generate self arg) in
  set_conversation_history _ _ self (log after) = after /\
  (forall cleaned r,
      arg <> EmptyString ->
      clean_text arg = inr cleaned ->
      generate_response cleaned = inr r ->
      log after = log self ++ [{| input := arg; response := r |}] /\
      (fst (after_ending _ _ (generate self arg)) = Running <->
       save_conversation_history (log after) = None)) /\
  (arg = EmptyString \/
   (exists e, clean_text arg = inl e) \/
   (exists cleaned e,
       clean_text arg = inr cleaned /\ generate_response cleaned = inl e) ->
   after = self).
Proof.
  cbv zeta. unfold do_generate.
  assert (Hself : set_conversation_history _ _ self (log self) = self)
    by now destruct self.
  destruct arg as [|a s].
  { cbn. repeat split; try assumption; try congruence. }
  destruct (clean_text (String a s)) as [e|cleaned] eqn:Hclean.
  { cbn. repeat split; try assumption; try congruence. }
  destruct (generate_response cleaned) as [e|r] eqn:Hgen.
  { cbn. split; [assumption|]. split; [|reflexivity].
    intros c r _ Hc Hr. congruence. }
  destruct (save_conversation_history _) as [e|] eqn:Hsave; cbn;
    (split; [reflexivity|]); (split;
      [intros c r' _ Hc Hr;
       assert (c = cleaned) by congruence; subst c;
       assert (r' = r) by congruence; subst r';
       split; [reflexivity|]; cbn in Hsave; rewrite Hsave;
       split; congruence
      |intros [H|[[e' H]|(c & e' & Hc & He)]]; congruence]).
Qed.

Lemma slice_from_last {A : Type} (l : list A) (x : A) :
  slice_from (l ++ [x]) (-1)%Z = [x].
Proof.
  rewrite slice_from_skipn.
  change ((-1 <? 0)%Z) with true. change (Z.to_nat (- -1)) with 1. cbv iota.
  rewrite length_app. cbn [List.length].
  replace (List.length l + 1 - 1) with (List.length l) by lia.
  now rewrite skipn_app, skipn_all, Nat.sub_diag.
Qed.

(** X12.  What [generate] has just answered is what [history 1] lists and
    what the next [build_ngram] without a file trains on last: after
    a [generate] that returned normally, a limit that [int] reads as 1
    lists exactly the new exchange, with the argument as its input and
    the printed response as its response, and the training text has the
    words of the old text followed by the words of the argument and of
    the response. *)
Theorem generate_then_history (self after : console) (arg harg : string)
    (printed : list string) :
  generate self arg = Ends printed after ->
  arg <> EmptyString -> harg <> EmptyString -> py_int harg = Some 1%Z ->
  exists r,
    printed = [("Input: " ++ arg)%string;
               ("Generated Response: " ++ r)%string] /\
    do_history Model RatingManager py_int after harg
      = inr [{| input := arg; response := r |}] /\
    split (history_text Model RatingManager after) =
    split (history_text Model RatingManager self) ++ split arg ++ split r.
Proof.
  unfold do_generate. intros Hgen Harg Hharg Hone.
  destruct arg as [|a s]; [congruence|].
  destruct (clean_text (String a s)) as [e|cleaned]; [discriminate|].
  destruct (generate_response cleaned) as [e|r]; [discriminate|].
  destruct (save_conversation_history _) as [e|]; [discriminate|].
  inversion Hgen; subst; clear Hgen.
  exists r. split; [reflexivity|]. split.
  - unfold do_history. destruct harg as [|b t]; [congruence|].
    rewrite Hone. cbn [conversation_history set_conversation_history].
    f_equal. apply slice_from_last.
  - unfold history_text. rewrite !split_join.
    cbn [conversation_history set_conversation_history].
    rewrite map_app, flat_map_app. cbn [map flat_map input response].
    now rewrite app_nil_r, split_blank.
Qed.

(** [build_ngram] leaves the rating manager and the history alone. *)
Lemma build_ngram_frame (self after : console) (arg : string)
    (printed : list string) :
  build_ngram self arg = Returns _ _ printed after ->
  rating_manager _ _ after = rating_manager _ _ self /\
  log after = log self.
Proof.
  unfold do_build_ngram.
  destruct (build_ngram_args py_int (split arg)) as [e|[filepath n]];
    [discriminate|].
  destruct (match truthy_path filepath with Some _ => _ | None => _ end);
    [intros H; inversion H; now subst|].
  destruct (match clean_text _ with inl _ => _ | inr _ => _ end);
    [intros H; inversion H; now subst|].
  destruct (n =? 2)%Z; intros H; inversion H; now subst.
Qed.

Lemma build_ngram_args_raises (parts : list string) (e : exn) :
  build_ngram_args py_int parts = inl e <->
  e = ValueError /\ exists f k, parts = [f; k] /\ py_int k = None.
Proof.
  unfold build_ngram_args. split.
  - destruct parts as [|f [|k [|x rest]]]; try discriminate.
    + destruct (str_in f ["2"; "3"]); discriminate.
    + destruct (py_int k) eqn:Hk; [discriminate|].
      intros H; inversion H. split; [reflexivity|]. now exists f, k.
  - intros (-> & f & k & -> & Hk). now rewrite Hk.
Qed.

Lemma build_ngram_raises (self : console) (arg : string) (e : exn) :
  build_ngram self arg = Raises _ _ e <->
  build_ngram_args py_int (split arg) = inl e.
Proof.
  unfold do_build_ngram.
  destruct (build_ngram_args py_int (split arg)) as [e'|[filepath n]].
  - split; congruence.
  - split; [|discriminate]. intros Hraise. exfalso.
    destruct (match truthy_path filepath with Some _ => _ | None => _ end);
      [discriminate|].
    destruct (match clean_text _ with inl _ => _ | inr _ => _ end);
      [discriminate|].
    destruct (n =? 2)%Z; discriminate.
Qed.

(** X13.  The only exception [build_ngram] lets out is the [ValueError]
    of [int] on the second of exactly two words; a missing or unreadable
    file and a failing preprocessor or model builder are reported in a
    printed line, and the command returns with the console unchanged. *)
Theorem build_ngram_escapes (self : console) (arg : string) :
  (forall e,
      build_ngram self arg = Raises _ _ e <->
      e = ValueError /\
      exists f k, split arg = [f; k] /\ py_int k = None) /\
  (forall printed after,
      build_ngram self arg = Returns _ _ printed after ->
      after = self \/
      exists filepath n tokens m,
        build_ngram_args py_int (split arg) = inr (filepath, n) /\
        build_ngram_model tokens n = inr m /\
        (bigram_model _ _ after = Some m \/ trigram_model _ _ after = Some m)).
Proof.
  split.
  - intros e. now rewrite build_ngram_raises, build_ngram_args_raises.
  - intros printed after. unfold do_build_ngram.
    destruct (build_ngram_args py_int (split arg)) as [e|[filepath n]];
      [discriminate|].
    destruct (match truthy_path filepath with Some _ => _ | None => _ end)
      as [msg|all_text].
    { intros H; inversion H. now left. }
    destruct (clean_text all_text) as [e|cleaned].
    { intros H; inversion H. now left. }
    destruct (build_ngram_model (split cleaned) n) as [e|m] eqn:Hbuild.
    { intros H; inversion H. now left. }
    destruct (n =? 2)%Z; intros H; inversion H; subst; right;
      exists filepath, n, (split cleaned), m; repeat split; auto.
Qed.

Lemma index_last {A : Type} (front : list A) (w : A) :
  index (front ++ [w]) (-1)%Z = Some w.
Proof.
  rewrite (index_from_end _ 1), length_app, nth_error_app2;
    rewrite ?length_app; cbn [List.length]; try lia.
  now replace (List.length front + 1 - 1 - List.length front) with 0 by lia.
Qed.

(** [predict_next_word] on an argument whose last word names a model. *)
Lemma predict_next_word_typed (self : console) (parg : string)
    (front : list string) (w : string) :
  split parg = front ++ [w] -> front <> [] ->
  str_in w ["bigram"; "trigram"] = true ->
  do_predict_next_word Model model_truthy RatingManager self parg =
  match select_model Model model_truthy RatingManager self w with
  | inl msg => Say msg
  | inr (m, n) => PredictNextWord m (join " " front) n (Finite (8 # 10)%Q)
  end.
Proof.
  intros Hparts Hfront Hw. unfold do_predict_next_word.
  destruct parg as [|a s]; [destruct front; discriminate|].
  assert (Htyped : typed_prefix (split (String a s)) = true).
  { unfold typed_prefix. rewrite Hparts, index_last, Hw.
    apply andb_true_iff. split; [|reflexivity]. apply Nat.ltb_lt.
    rewrite length_app. destruct front; [congruence | simpl; lia]. }
  pose proof (slice_to_drop front [w]) as Hdrop.
  change (- Z.of_nat (List.length [w]))%Z with (-1)%Z in Hdrop.
  unfold model_type_of, prefix_of. rewrite Htyped, Hparts, index_last.
  rewrite Hdrop by discriminate. reflexivity.
Qed.

(** X14.  The order a model was built with is not kept: when
    [build_ngram] changes the trigram slot, the model it stored was built
    for some order other than 2, whichever that is, and
    [predict_next_word ... trigram] then hands that model to the
    predictor with [n = 3]. *)
Theorem built_order_is_forgotten (self after : console) (arg : string)
    (printed : list string) :
  build_ngram self arg = Returns _ _ printed after ->
  trigram_model _ _ after <> trigram_model _ _ self ->
  exists filepath n tokens m,
    build_ngram_args py_int (split arg) = inr (filepath, n) /\
    n <> 2%Z /\
    build_ngram_model tokens n = inr m /\
    trigram_model _ _ after = Some m /\
    forall parg front,
      split parg = front ++ ["trigram"] -> front <> [] ->
      model_truthy m = true ->
      do_predict_next_word Model model_truthy RatingManager after parg =
      PredictNextWord m (join " " front) 3%Z (Finite (8 # 10)%Q).
Proof.
  unfold do_build_ngram.
  destruct (build_ngram_args py_int (split arg)) as [e|[filepath n]];
    [discriminate|].
  destruct (match truthy_path filepath with Some _ => _ | None => _ end)
    as [msg|all_text]; [intros H; inversion H; congruence|].
  destruct (clean_text all_text) as [e|cleaned];
    [intros H; inversion H; congruence|].
  destruct (build_ngram_model (split cleaned) n) as [e|m] eqn:Hbuild;
    [intros H; inversion H; congruence|].
  destruct (Z.eqb_spec n 2) as [->|Hn]; intros H; inversion H; subst;
    cbn [trigram_model]; [congruence|]. intros _.
  exists filepath, n, (split cleaned), m. repeat split; try assumption.
  intros parg front Hparts Hfront Htruthy.
  rewrite (predict_next_word_typed _ parg front "trigram")
    by (assumption || reflexivity).
  unfold select_model. cbn [String.eqb Ascii.eqb Bool.eqb trigram_model].
  change (String.eqb "trigram" "bigram") with false. cbv iota.
  now rewrite Htruthy.
Qed.

End CommandFacts.

(** * Properties of whole sessions *)

Section SessionFacts.

Variable Model : Type.
Variable model_truthy : Model -> bool.
Variable RatingManager : Type.
Variable py_int : string -> option Z.
Variable py_float : string -> option float.

Local Abbreviation console := (SBTConsole Model RatingManager).
Local Abbreviation world := (collaborators Model RatingManager).
Local Abbreviation log := (conversation_history Model RatingManager).
Local Abbreviation bigram := (bigram_model Model RatingManager).
Local Abbreviation trigram := (trigram_model Model RatingManager).
Local Abbreviation rating := (rating_manager Model RatingManager).
Local Abbreviation one := (onecmd Model RatingManager py_int).
Local Abbreviation loop := (cmdloop Model RatingManager py_int).
Local Abbreviation builder := (co_build_ngram_model Model RatingManager).

(** ** One command *)

Lemma after_ending_generate (c : world) (self : console) (arg : string) :
  let after :=
    snd (after_ending _ _
           (do_generate _ _ (co_clean_text _ _ c) (co_generate_response _ _ c)
              (co_save_conversation_history _ _ c) self arg)) in
  rating after = rating self /\ bigram after = bigram self /\
  trigram after = trigram self /\
  (log after = log self \/
   exists r, arg <> EmptyString /\
             log after = log self ++ [{| input := arg; response := r |}]).
Proof.
  cbv zeta. unfold do_generate.
  destruct arg as [|a s]; [cbn; auto|].
  destruct (co_clean_text _ _ c _); [cbn; auto|].
  destruct (co_generate_response _ _ c _) as [e|r]; [cbn; auto|].
  destruct (co_save_conversation_history _ _ c _); cbn;
    repeat split; right; exists r; split; congruence.
Qed.

(** What one command can do to the history: nothing, one exchange more
    at the end (only [generate]), or none left (only [clear_history]). *)
Lemma onecmd_history (c : world) (cmd : command) (self : console) :
  log (snd (one c cmd self)) = log self \/
  (exists arg r,
      cmd = cmd_generate arg /\ arg <> EmptyString /\
      log (snd (one c cmd self))
        = log self ++ [{| input := arg; response := r |}]) \/
  (exists arg, cmd = cmd_clear_history arg /\ log (snd (one c cmd self)) = []).
Proof.
  destruct cmd as [a|a|a|a|a|a|a|a|a|a|a]; cbn [onecmd];
    try (left; reflexivity).
  - left. unfold do_preprocess. destruct a; [reflexivity|].
    now destruct (co_clean_text _ _ c _).
  - destruct (after_ending_generate c self a) as (_ & _ & _ & [H|[r [Ha H]]]);
      [now left | right; left; now exists a, r].
  - left. destruct (do_feedback_state Model RatingManager
                      (co_process_feedback _ _ c) (co_get_current_params _ _ c)
                      self a) as (rm & ->). reflexivity.
  - left. unfold do_spell_correct. destruct a; [reflexivity|].
    now destruct (co_basic_spell_correct _ _ c _).
  - left. unfold do_export. now destruct (co_write_export _ _ c _ _).
  - right; right. exists a. split; [reflexivity|]. unfold do_clear_history.
    now destruct (co_save_conversation_history _ _ c _).
  - left.
    destruct (do_build_ngram _ _ _ _ _ _ _ self a) as [e|printed after] eqn:Hb;
      [reflexivity|].
    cbn [snd]. now apply build_ngram_frame in Hb as (_ & ->).
Qed.

(** What one command can do to the models: only [build_ngram] stores one,
    in the bigram slot a model the builder returned for order 2, in the
    trigram slot a model it returned for another order. *)
Lemma onecmd_models (c : world) (cmd : command) (self : console) :
  (bigram (snd (one c cmd self)) = bigram self \/
   exists arg tokens m,
     cmd = cmd_build_ngram arg /\ builder c tokens 2%Z = inr m /\
     bigram (snd (one c cmd self)) = Some m) /\
  (trigram (snd (one c cmd self)) = trigram self \/
   exists arg tokens n m,
     cmd = cmd_build_ngram arg /\ n <> 2%Z /\ builder c tokens n = inr m /\
     trigram (snd (one c cmd self)) = Some m).
Proof.
  destruct cmd as [a|a|a|a|a|a|a|a|a|a|a]; cbn [onecmd];
    try (split; left; reflexivity).
  - unfold do_preprocess. destruct a; [split; left; reflexivity|].
    destruct (co_clean_text _ _ c _); split; left; reflexivity.
  - destruct (after_ending_generate c self a) as (_ & Hb & Ht & _).
    split; left; assumption.
  - destruct (do_feedback_state Model RatingManager
                (co_process_feedback _ _ c) (co_get_current_params _ _ c)
                self a) as (rm & ->). split; left; reflexivity.
  - unfold do_spell_correct. destruct a; [split; left; reflexivity|].
    destruct (co_basic_spell_correct _ _ c _); split; left; reflexivity.
  - unfold do_export. destruct (co_write_export _ _ c _ _);
      split; left; reflexivity.
  - unfold do_clear_history.
    destruct (co_save_conversation_history _ _ c _); split; left; reflexivity.
  - unfold do_build_ngram.
    destruct (build_ngram_args py_int (split a)) as [e|[filepath n]];
      [split; left; reflexivity|].
    destruct (match truthy_path filepath with Some _ => _ | None => _ end)
      as [msg|all_text]; [split; left; reflexivity|].
    destruct (co_clean_text _ _ c all_text) as [e|cleaned];
      [split; left; reflexivity|].
    destruct (co_build_ngram_model _ _ c (split cleaned) n) as [e|m] eqn:Hm;
      [split; left; reflexivity|].
    destruct (Z.eqb_spec n 2) as [->|Hn]; cbn [snd bigram_model trigram_model].
    + split; [right; now exists a, (split cleaned), m | left; reflexivity].
    + split; [left; reflexivity | right; now exists a, (split cleaned), n, m].
Qed.

Lemma onecmd_rating (c : world) (cmd : command) (self : console) :
  rating (snd (one c cmd self)) = rating self \/ exists arg, cmd = cmd_feedback arg.
Proof.
  destruct cmd as [a|a|a|a|a|a|a|a|a|a|a]; cbn [onecmd];
    try (left; reflexivity); try (right; now exists a).
  - left. unfold do_preprocess. destruct a; [reflexivity|].
    now destruct (co_clean_text _ _ c _).
  - left. now destruct (after_ending_generate c self a) as (H & _).
  - left. unfold do_spell_correct. destruct a; [reflexivity|].
    now destruct (co_basic_spell_correct _ _ c _).
  - left. unfold do_export. now destruct (co_write_export _ _ c _ _).
  - left. unfold do_clear_history.
    now destruct (co_save_conversation_history _ _ c _).
  - left.
    destruct (do_build_ngram _ _ _ _ _ _ _ self a) as [e|printed after] eqn:Hb;
      [reflexivity|].
    cbn [snd]. now apply build_ngram_frame in Hb as (-> & _).
Qed.

(** The loop, one command further. *)
Lemma cmdloop_cons (c : world) (cmd : command)
    (rest : list (world * command)) (self : console) :
  loop ((c, cmd) :: rest) self =
  match fst (one c cmd self) with
  | Running => loop rest (snd (one c cmd self))
  | _ => one c cmd self
  end.
Proof.
  cbn [cmdloop]. destruct (one c cmd self) as [[| |e] after]; reflexivity.
Qed.

(** ** Sessions *)

Lemma cmdloop_models (script : list (world * command)) :
  forall self,
    (forall m,
        bigram (snd (loop script self)) = Some m ->
        bigram self = Some m \/
        exists c arg tokens,
          In (c, cmd_build_ngram arg) script /\ builder c tokens 2%Z = inr m) /\
    (forall m,
        trigram (snd (loop script self)) = Some m ->
        trigram self = Some m \/
        exists c arg tokens n,
          In (c, cmd_build_ngram arg) script /\ n <> 2%Z /\
          builder c tokens n = inr m).
Proof.
  induction script as [|[c cmd] rest IH]; intros self.
  - split; intros m Hm; now left.
  - rewrite cmdloop_cons.
    destruct (onecmd_models c cmd self) as [Hb Ht].
    assert (Hstep :
      forall after,
        (forall m, bigram after = Some m ->
           bigram (snd (one c cmd self)) = Some m \/
           exists c' arg tokens,
             In (c', cmd_build_ngram arg) rest /\ builder c' tokens 2%Z = inr m) ->
        (forall m, trigram after = Some m ->
           trigram (snd (one c cmd self)) = Some m \/
           exists c' arg tokens n,
             In (c', cmd_build_ngram arg) rest /\ n <> 2%Z /\
             builder c' tokens n = inr m) ->
        (forall m, bigram after = Some m ->
           bigram self = Some m \/
           exists c' arg tokens,
             In (c', cmd_build_ngram arg) ((c, cmd) :: rest) /\
             builder c' tokens 2%Z = inr m) /\
        (forall m, trigram after = Some m ->
           trigram self = Some m \/
           exists c' arg tokens n,
             In (c', cmd_build_ngram arg) ((c, cmd) :: rest) /\ n <> 2%Z /\
             builder c' tokens n = inr m)).
    { intros after Hab Hat. split; intros m Hm.
      - destruct (Hab m Hm) as [Hone|(c' & arg & tokens & Hin & Hbuilt)].
        + destruct Hb as [Hsame|(arg & tokens & m' & -> & Hbuilt & Hstored)].
          * left. congruence.
          * right. exists c, arg, tokens. split; [now left|]. congruence.
        + right. exists c', arg, tokens. split; [now right | assumption].
      - destruct (Hat m Hm) as [Hone|(c' & arg & tokens & n & Hin & Hn & Hbuilt)].
        + destruct Ht as [Hsame|(arg & tokens & n & m' & -> & Hn & Hbuilt & Hstored)].
          * left. congruence.
          * right. exists c, arg, tokens, n.
            split; [now left|]. split; [assumption | congruence].
        + right. exists c', arg, tokens, n. split; [now right | now split]. }
    destruct (fst (one c cmd self)).
    + apply Hstep; apply IH.
    + apply Hstep; intros m Hm; now left.
    + apply Hstep; intros m Hm; now left.
Qed.

(** X15.  In a session started from a fresh console, whatever was done
    in it, a prediction command reaches the predictor only with a model
    that a [build_ngram] command of that session got from the model
    builder; the predictor is told [n = 2] when that model was built for
    order 2 and [n = 3] when it was built for any other order. *)
Theorem prediction_uses_built_model (script : list (world * command))
    (rm : RatingManager) (loaded : list exchange) (parg text : string)
    (m : Model) (n : Z) (T : float) :
  let self := snd (loop script (init Model RatingManager rm loaded)) in
  do_predict_next_word Model model_truthy RatingManager self parg
    = PredictNextWord m text n T \/
  (exists len,
      do_generate_sequence Model model_truthy RatingManager py_int py_float
        self parg = GenerateSequence m text len n T) ->
  exists c arg tokens k,
    In (c, cmd_build_ngram arg) script /\
    builder c tokens k = inr m /\
    ((k = 2%Z /\ n = 2%Z) \/ (k <> 2%Z /\ n = 3%Z)).
Proof.
  intros self Hcall.
  assert (Hslot : (n = 2%Z /\ bigram self = Some m) \/
                  (n = 3%Z /\ trigram self = Some m)).
  { destruct Hcall as [Hp|[len Hg]].
    - unfold do_predict_next_word in Hp.
      destruct parg as [|a s]; [discriminate|].
      destruct (select_model _ _ _ self _) as [msg|[m' k]] eqn:Hsel;
        [discriminate|].
      inversion Hp; subst. now apply select_model_slot in Hsel.
    - apply generate_sequence_call in Hg as (_ & _ & _ & _ & Hsel).
      now apply select_model_slot in Hsel. }
  destruct (cmdloop_models script (init Model RatingManager rm loaded))
    as [Hb Ht].
  destruct Hslot as [[-> Hm]|[-> Hm]].
  - destruct (Hb m Hm) as [Hinit|(c & arg & tokens & Hin & Hbuilt)];
      [discriminate|].
    exists c, arg, tokens, 2%Z. auto.
  - destruct (Ht m Hm) as [Hinit|(c & arg & tokens & k & Hin & Hk & Hbuilt)];
      [discriminate|].
    exists c, arg, tokens, k. auto.
Qed.

(** The history over the dispatches of a session. *)
Lemma dispatch_history (script : list (world * command)) (self : console) :
  exists kept added,
    log (snd (loop script self)) = kept ++ added /\
    (kept = log self \/ kept = []) /\
    ((forall c a, ~ In (c, cmd_clear_history a) script) -> kept = log self) /\
    Forall (fun ex => input ex <> EmptyString /\
                      exists c, In (c, cmd_generate (input ex)) script) added /\
    List.length added <= List.length (filter is_generate (map snd script)).
Proof.
  revert self. induction script as [|[c cmd] rest IH]; intros self.
  - exists (log self), []. cbn. rewrite app_nil_r.
    repeat split; auto.
  - rewrite cmdloop_cons.
    assert (Hstep :
      forall after,
        (exists kept added,
            log after = kept ++ added /\
            (kept = log (snd (one c cmd self)) \/ kept = []) /\
            ((forall c' a, ~ In (c', cmd_clear_history a) rest) ->
             kept = log (snd (one c cmd self))) /\
            Forall (fun ex => input ex <> EmptyString /\
                      exists c', In (c', cmd_generate (input ex)) rest) added /\
            List.length added
              <= List.length (filter is_generate (map snd rest))) ->
        exists kept added,
          log after = kept ++ added /\
          (kept = log self \/ kept = []) /\
          ((forall c' a, ~ In (c', cmd_clear_history a) ((c, cmd) :: rest)) ->
           kept = log self) /\
          Forall (fun ex => input ex <> EmptyString /\
                    exists c', In (c', cmd_generate (input ex))
                                 ((c, cmd) :: rest)) added /\
          List.length added
            <= List.length (filter is_generate (map snd ((c, cmd) :: rest)))).
    { intros after (kept & added & Hlog & Hkept & Hnoclear & Hadded & Hlen).
      assert (Hadded' :
        Forall (fun ex => input ex <> EmptyString /\
                  exists c', In (c', cmd_generate (input ex))
                               ((c, cmd) :: rest)) added).
      { eapply Forall_impl; [|exact Hadded].
        intros ex (Hne & c' & Hin). split; [assumption|].
        exists c'. now right. }
      assert (Hlen' :
        List.length (filter is_generate (map snd rest))
        <= List.length (filter is_generate (map snd ((c, cmd) :: rest)))).
      { cbn [map snd filter]. destruct (is_generate cmd); simpl; lia. }
      assert (Hrest : (forall c' a, ~ In (c', cmd_clear_history a)
                                      ((c, cmd) :: rest)) ->
                      forall c' a, ~ In (c', cmd_clear_history a) rest).
      { intros Hno c' a Hin. apply (Hno c' a). now right. }
      destruct (onecmd_history c cmd self)
        as [Hsame|[(arg & r & -> & Harg & Hone)|(arg & -> & Hone)]].
      - exists kept, added. rewrite Hsame in *.
        repeat split; auto. lia.
      - destruct Hkept as [Hk|Hk].
        + exists (log self), ({| input := arg; response := r |} :: added).
          split; [rewrite Hlog, Hk, Hone, <- app_assoc; reflexivity|].
          split; [now left|]. split; [reflexivity|]. split.
          * constructor; [|assumption]. cbn [input]. split; [assumption|].
            exists c. now left.
          * cbn [map snd filter is_generate List.length]. lia.
        + exists kept, added. split; [assumption|]. split; [now right|].
          split; [|split; [assumption | lia]].
          intros Hno. specialize (Hnoclear (Hrest Hno)).
          rewrite Hone, Hk in Hnoclear. now destruct (log self).
      - exists kept, added. split; [assumption|].
        split; [right; destruct Hkept; congruence|].
        split; [|split; [assumption | lia]].
        intros Hno. exfalso. apply (Hno c arg). now left. }
    destruct (fst (one c cmd self)).
    + apply Hstep. apply IH.
    + apply Hstep. exists (log (snd (one c cmd self))), [].
      rewrite app_nil_r. repeat split; auto. cbn. lia.
    + apply Hstep. exists (log (snd (one c cmd self))), [].
      rewrite app_nil_r. repeat split; auto. cbn. lia.
Qed.

(** A dispatched command was typed on a line of the session, or is the
    command remembered from before. *)
Lemma dispatched_in {World : Type} (lines : list (World * line)) :
  forall lastcmd c cmd,
    In (c, cmd) (dispatched lastcmd lines) ->
    lastcmd = Some cmd \/ exists c', In (c', typed cmd) lines.
Proof.
  induction lines as [|[c0 [cmd0| | |]] rest IH]; intros lastcmd c cmd;
    cbn [dispatched].
  - intros [].
  - intros [Hhere|Hin].
    + inversion Hhere; subst. right. exists c. now left.
    + destruct (IH _ _ _ Hin) as [Hlast|[c' Hc']].
      * inversion Hlast; subst. right. exists c0. now left.
      * right. exists c'. now right.
  - destruct lastcmd as [cmd1|].
    + intros [Hhere|Hin].
      * inversion Hhere; subst. now left.
      * destruct (IH _ _ _ Hin) as [Hlast|[c' Hc']]; [now left|].
        right. exists c'. now right.
    + intros Hin.
      destruct (IH _ _ _ Hin) as [Hlast|[c' Hc']]; [now left|].
      right. exists c'. now right.
  - intros Hin.
    destruct (IH _ _ _ Hin) as [Hlast|[c' Hc']]; [now left|].
    right. exists c'. now right.
  - intros Hin.
    destruct (IH _ _ _ Hin) as [Hlast|[c' Hc']]; [discriminate|].
    right. exists c'. now right.
Qed.

(** Each dispatch of [generate] comes from a line that names it or from
    an empty line. *)
Lemma dispatched_generate_count {World : Type} (lines : list (World * line)) :
  forall lastcmd,
    List.length (filter is_generate (map snd (dispatched lastcmd lines)))
    <= List.length (filter may_generate (map snd lines)).
Proof.
  induction lines as [|[c0 [cmd0| | |]] rest IH]; intros lastcmd;
    cbn [dispatched map snd filter may_generate].
  - apply Nat.le_refl.
  - specialize (IH (Some cmd0)). destruct cmd0; cbn [is_generate List.length]; lia.
  - destruct lastcmd as [cmd1|]; cbn [map snd filter List.length].
    + specialize (IH (Some cmd1)).
      destruct (is_generate cmd1); cbn [List.length]; lia.
    + specialize (IH None). lia.
  - apply IH.
  - apply IH.
Qed.

(** X16.  The history is a log that only [generate] extends and only
    [clear_history] cuts: after the lines of any session it is what was
    kept of the starting history (all of it, and certainly so when no
    line of the session names [clear_history]; or nothing) followed by
    exchanges added since.  Each added exchange has as its input the
    non-empty argument of a [generate] line of the session, and there
    are at most as many of them as there are [generate] lines and empty
    lines together, an empty line running the last command again. *)
Theorem session_history (lines : list (world * line)) (self : console) :
  exists kept added,
    log (snd (loop (dispatched None lines) self)) = kept ++ added /\
    (kept = log self \/ kept = []) /\
    ((forall c a, ~ In (c, typed (cmd_clear_history a)) lines) ->
     kept = log self) /\
    Forall (fun ex => input ex <> EmptyString /\
                      exists c, In (c, typed (cmd_generate (input ex))) lines)
           added /\
    List.length added <= List.length (filter may_generate (map snd lines)).
Proof.
  destruct (dispatch_history (dispatched None lines) self)
    as (kept & added & Hlog & Hkept & Hnoclear & Hadded & Hlen).
  exists kept, added.
  split; [assumption|]. split; [assumption|]. split; [|split].
  - intros Hno. apply Hnoclear. intros c a Hin.
    destruct (dispatched_in lines None c _ Hin) as [Hlast|[c' Hc']];
      [discriminate|].
    now apply (Hno c' a).
  - eapply Forall_impl; [|exact Hadded].
    intros ex (Hne & c & Hin). split; [assumption|].
    destruct (dispatched_in lines None c _ Hin) as [Hlast|[c' Hc']];
      [discriminate|].
    now exists c'.
  - etransitivity; [exact Hlen|]. apply dispatched_generate_count.
Qed.

(** X17.  What a session cannot touch: without a [feedback] command the
    rating manager is the one the session started with, without a
    [build_ngram] command both model slots are as they were, and without
    a [generate] or [clear_history] command so is the history; however
    the session ended. *)
Theorem session_frame (script : list (world * command)) (self : console) :
  ((forall c a, ~ In (c, cmd_feedback a) script) ->
   rating (snd (loop script self)) = rating self) /\
  ((forall c a, ~ In (c, cmd_build_ngram a) script) ->
   bigram (snd (loop script self)) = bigram self /\
   trigram (snd (loop script self)) = trigram self) /\
  ((forall c a, ~ In (c, cmd_generate a) script /\
                ~ In (c, cmd_clear_history a) script) ->
   log (snd (loop script self)) = log self).
Proof.
  revert self. induction script as [|[c cmd] rest IH]; intros self.
  - cbn. auto.
  - rewrite cmdloop_cons.
    assert (Hafter :
      snd (match fst (one c cmd self) with
           | Running => loop rest (snd (one c cmd self))
           | _ => one c cmd self
           end) = snd (one c cmd self) \/
      snd (match fst (one c cmd self) with
           | Running => loop rest (snd (one c cmd self))
           | _ => one c cmd self
           end) = snd (loop rest (snd (one c cmd self)))).
    { destruct (fst (one c cmd self)); auto. }
    destruct (IH (snd (one c cmd self))) as (IHr & IHm & IHl).
    split; [|split].
    + intros Hno.
      assert (Hone : rating (snd (one c cmd self)) = rating self).
      { destruct (onecmd_rating c cmd self) as [H|[a ->]]; [assumption|].
        exfalso. apply (Hno c a). now left. }
      destruct Hafter as [->| ->]; [assumption|].
      rewrite IHr; [assumption|].
      intros c' a Hin. apply (Hno c' a). now right.
    + intros Hno.
      assert (Hone : bigram (snd (one c cmd self)) = bigram self /\
                     trigram (snd (one c cmd self)) = trigram self).
      { destruct (onecmd_models c cmd self) as [Hb Ht]. split.
        - destruct Hb as [H|(a & _ & _ & -> & _)]; [assumption|].
          exfalso. apply (Hno c a). now left.
        - destruct Ht as [H|(a & _ & _ & _ & -> & _)]; [assumption|].
          exfalso. apply (Hno c a). now left. }
      destruct Hafter as [->| ->]; [assumption|].
      destruct IHm as [Hb Ht].
      { intros c' a Hin. apply (Hno c' a). now right. }
      rewrite Hb, Ht. assumption.
    + intros Hno.
      assert (Hone : log (snd (one c cmd self)) = log self).
      { destruct (onecmd_history c cmd self)
          as [H|[(a & r & -> & _)|(a & -> & _)]]; [assumption| |].
        - exfalso. apply (proj1 (Hno c a)). now left.
        - exfalso. apply (proj2 (Hno c a)). now left. }
      destruct Hafter as [->| ->]; [assumption|].
      rewrite IHl; [assumption|].
      intros c' a. split; intros Hin.
      * apply (proj1 (Hno c' a)). now right.
      * apply (proj2 (Hno c' a)). now right.
Qed.

(** Why one command can leave the loop with an exception. *)
Lemma onecmd_crash (c : world) (cmd : command) (self : console)
    (error : string) :
  fst (one c cmd self) = Crashed error -> crash_cause py_int c cmd error.
Proof.
  destruct cmd as [a|a|a|a|a|a|a|a|a|a|a]; cbn [onecmd crash_cause fst];
    try discriminate.
  - unfold do_preprocess. destruct a; [discriminate|].
    destruct (co_clean_text _ _ c _) as [e|t]; cbn; congruence.
  - unfold do_generate. destruct a; [discriminate|].
    destruct (co_clean_text _ _ c _) as [e|cleaned]; [cbn; left; congruence|].
    destruct (co_generate_response _ _ c cleaned) as [e|r] eqn:Hr.
    { cbn. intros H. right; left. exists cleaned. congruence. }
    destruct (co_save_conversation_history _ _ c _) as [e|] eqn:Hs;
      [|discriminate].
    cbn. intros H. right; right. eexists. rewrite Hs. congruence.
  - unfold do_spell_correct. destruct a; [discriminate|].
    destruct (co_basic_spell_correct _ _ c _) as [e|t]; cbn; congruence.
  - unfold do_export. destruct (co_write_export _ _ c _ _); discriminate.
  - unfold do_clear_history.
    cbn [conversation_history set_conversation_history].
    destruct (co_save_conversation_history _ _ c []) as [e|];
      cbn; congruence.
  - destruct (do_build_ngram _ _ _ _ _ _ _ self a) as [e|printed after] eqn:Hb;
      [|discriminate].
    apply build_ngram_raises, build_ngram_args_raises in Hb
      as (-> & f & k & Hparts & Hk).
    cbn. intros H. split; [congruence|]. now exists f, k.
Qed.

(** A session that does not end running was stopped by one of its
    commands. *)
Lemma cmdloop_stopped (script : list (world * command)) :
  forall self st after,
    loop script self = (st, after) -> st <> Running ->
    exists c cmd mid, In (c, cmd) script /\ fst (one c cmd mid) = st.
Proof.
  induction script as [|[c cmd] rest IH]; intros self st after.
  - cbn. intros H; inversion H; congruence.
  - rewrite cmdloop_cons. destruct (fst (one c cmd self)) eqn:Hst.
    + intros Hloop Hne.
      destruct (IH _ _ _ Hloop Hne) as (c' & cmd' & mid & Hin & Hone).
      exists c', cmd', mid. split; [now right | assumption].
    + intros Hone _. exists c, cmd, self. split; [now left|].
      now rewrite Hone.
    + intros Hone _. exists c, cmd, self. split; [now left|].
      now rewrite Hone.
Qed.

(** X18.  A session ends with an exception only through one of five
    commands: a [build_ngram] whose two-word argument has a second word
    that [int] rejects (a [ValueError]), a [preprocess], [spell_correct]
    or [generate] whose preprocessor or generator raised, or a
    [generate] or [clear_history] whose saving of the history raised.
    [history], [feedback], [export], [predict_next_word],
    [generate_sequence] and [exit] never end it that way. *)
Theorem session_crash (script : list (world * command)) (self after : console)
    (error : string) :
  loop script self = (Crashed error, after) ->
  exists c cmd, In (c, cmd) script /\ crash_cause py_int c cmd error.
Proof.
  intros Hloop.
  destruct (cmdloop_stopped script self (Crashed error) after Hloop)
    as (c & cmd & mid & Hin & Hone); [discriminate|].
  exists c, cmd. split; [assumption|]. now apply (onecmd_crash c cmd mid).
Qed.

End SessionFacts.

(** * Worked sessions *)

(** [generate hello there], then [history 1]. *)
Lemma generate_then_history_witness :
  let after :=
    set_conversation_history unit RatingController sample_console
      [{| input := "hello there"; response := "hello there" |}] in
  exists r,
    ["Input: hello there"; "Generated Response: hello there"]
      = [("Input: " ++ "hello there")%string;
         ("Generated Response: " ++ r)%string] /\
    do_history unit RatingController decimal_int after "1"
      = inr [{| input := "hello there"; response := r |}] /\
    split (history_text unit RatingController after) =
    split (history_text unit RatingController sample_console)
      ++ split "hello there" ++ split r.
Proof.
  apply (generate_then_history unit RatingController
           (co_clean_text _ _ sample_world)
           (co_generate_response _ _ sample_world)
           (co_save_conversation_history _ _ sample_world)
           decimal_int sample_console _ "hello there" "1"
           ["Input: hello there"; "Generated Response: hello there"]);
    [reflexivity | discriminate | discriminate | reflexivity].
Defined.

(** [build_ngram corpus.txt 5], then [predict_next_word the cat trigram]. *)
Lemma built_order_is_forgotten_witness :
  let after :=
    {| rating_manager := rating_manager _ _ sample_console;
       conversation_history := [];
       bigram_model := Some tt;
       trigram_model := Some tt |} in
  exists filepath n tokens m,
    build_ngram_args decimal_int (split "corpus.txt 5") = inr (filepath, n) /\
    n <> 2%Z /\
    sample_build_ngram_model tokens n = inr m /\
    trigram_model _ _ after = Some m /\
    forall parg front,
      split parg = front ++ ["trigram"] -> front <> [] ->
      always_truthy m = true ->
      do_predict_next_word unit always_truthy RatingController after parg =
      PredictNextWord m (join " " front) 3%Z (Finite (8 # 10)%Q).
Proof.
  apply (built_order_is_forgotten unit always_truthy RatingController
           sample_path_exists sample_read_file sample_clean_text
           sample_build_ngram_model decimal_int sample_console _
           "corpus.txt 5"
           ["Trigram model built successfully from file: corpus.txt."]);
    [reflexivity | discriminate].
Defined.

(** A fresh console, [generate hello there], [build_ngram 3], then
    [predict_next_word hello trigram]. *)
Lemma prediction_uses_built_model_witness :
  exists c arg tokens k,
    In (c, cmd_build_ngram arg)
      [(sample_world, cmd_generate "hello there");
       (sample_world, cmd_build_ngram "3")] /\
    co_build_ngram_model unit RatingController c tokens k = inr tt /\
    ((k = 2%Z /\ 3%Z = 2%Z) \/ (k <> 2%Z /\ 3%Z = 3%Z)).
Proof.
  apply (prediction_uses_built_model unit always_truthy RatingController
           decimal_int decimal_float
           [(sample_world, cmd_generate "hello there");
            (sample_world, cmd_build_ngram "3")]
           (sample_controller (1 # 2)%Q) [] "hello trigram" "hello"
           tt 3%Z (Finite (8 # 10)%Q)).
  left. reflexivity.
Defined.

(** A session that ends at [build_ngram corpus.txt two], before its
    [exit]. *)
Lemma session_crash_witness :
  exists c cmd,
    In (c, cmd)
      [(sample_world, cmd_generate "hello there");
       (sample_world, cmd_build_ngram "corpus.txt two");
       (sample_world, cmd_exit "")] /\
    crash_cause decimal_int c cmd "ValueError".
Proof.
  apply (session_crash unit RatingController decimal_int
           [(sample_world, cmd_generate "hello there");
            (sample_world, cmd_build_ngram "corpus.txt two");
            (sample_world, cmd_exit "")]
           sample_console
           (set_conversation_history unit RatingController sample_console
              [{| input := "hello there"; response := "hello there" |}])
           "ValueError").
  reflexivity.
Defined.

(** [generate hi] and then an empty line: the command runs twice, and the
    history of a fresh console holds two exchanges. *)
Example empty_line_repeats_generate :
  conversation_history _ _
    (snd (main decimal_int (sample_controller (1 # 2)%Q) []
            [(sample_world, typed (cmd_generate "hi"));
             (sample_world, empty_line)]))
  = [{| input := "hi"; response := "hi" |};
     {| input := "hi"; response := "hi" |}].
Proof. reflexivity. Qed.

(** After [help] an empty line repeats [help], not the [generate] before
    it. *)
Example empty_line_after_help :
  conversation_history _ _
    (snd (main decimal_int (sample_controller (1 # 2)%Q) []
            [(sample_world, typed (cmd_generate "hi"));
             (sample_world, other_line);
             (sample_world, empty_line)]))
  = [{| input := "hi"; response := "hi" |}].
Proof. reflexivity. Qed.
